(** * GGUF metadata dump ([debug_gguf.py]): embedding and properties

    The script reads the 24-byte header of a GGUF container and then walks
    at most fifty key/value entries, printing a trace on standard output.
    The file object and standard output are threaded through a small state
    monad whose outcomes also carry Python's non-local exits ([break],
    [return], a raised exception).

    Opening the file is not modelled: a run starts on the contents of the
    file, with the position at 0.  [struct.error] carries the message of
    Python 3 ("unpack requires a buffer of n bytes"), and standard output is
    taken to accept any text (a UTF-8 terminal). *)

From Stdlib Require Import Arith NArith List Bool Lia.
From Stdlib.Strings Require Import String Ascii Byte.
From Stdlib Require Import DecimalString HexadecimalString.
Import ListNotations.

Local Open Scope string_scope.
Local Open Scope list_scope.
Local Open Scope N_scope.

(** ** Python values and built-ins used by the script *)

Module Py.

(** [bytes] objects. *)
Definition bytes := list byte.

(** A [str] is kept as its UTF-8 encoding: the script only obtains text from
    literals, from integers and from [bytes.decode('utf-8')], so no lone
    surrogate can occur and two [str] are equal exactly when their encodings
    are. *)
Definition str := string.

(** f-strings: the pieces are concatenated. *)
Definition f (parts : list str) : str := String.concat "" parts.

Definition nl : str := String (ascii_of_nat 10) "".

(** [str(n)] for a non-negative integer. *)
Definition str_of_int (n : N) : str :=
  DecimalString.NilEmpty.string_of_uint (N.to_uint n).

(** [hex(n)]. *)
Definition hex (n : N) : str :=
  ("0x" ++ HexadecimalString.NilEmpty.string_of_uint (N.to_hex_uint n))%string.

(** The format spec [{n:2d}]: right-aligned in a field of width two. *)
Definition fmt_2d (n : N) : str :=
  if n <? 10 then (" " ++ str_of_int n)%string else str_of_int n.

(** Value of a little-endian byte string, as [struct.unpack('<I', b)[0]] and
    [struct.unpack('<Q', b)[0]] compute it once the size has been checked. *)
Fixpoint le_value (b : bytes) : N :=
  match b with
  | [] => 0
  | x :: t => Byte.to_N x + 256 * le_value t
  end.

(** [bytes.hex()]. *)
Definition hex_digit (n : N) : ascii :=
  ascii_of_N (if n <? 10 then 48 + n else 87 + n).

Fixpoint bytes_hex (b : bytes) : str :=
  match b with
  | [] => ""
  | x :: t =>
      String (hex_digit (Byte.to_N x / 16))
        (String (hex_digit (Byte.to_N x mod 16)) (bytes_hex t))
  end.

(** *** The UTF-8 codec

    [lead n] classifies a first byte: how many continuation bytes follow and
    the range the first of them must lie in ([None]: invalid start byte). *)
Definition lead (n : N) : option (nat * N * N) :=
  if n <? 0x80 then Some (0%nat, 0, 0)
  else if n <? 0xC2 then None
  else if n <? 0xE0 then Some (1%nat, 0x80, 0xBF)
  else if n =? 0xE0 then Some (2%nat, 0xA0, 0xBF)
  else if n =? 0xED then Some (2%nat, 0x80, 0x9F)
  else if n <? 0xF0 then Some (2%nat, 0x80, 0xBF)
  else if n =? 0xF0 then Some (3%nat, 0x90, 0xBF)
  else if n <? 0xF4 then Some (3%nat, 0x80, 0xBF)
  else if n =? 0xF4 then Some (3%nat, 0x80, 0x8F)
  else None.

(** U+FFFD, which the [replace] error handler substitutes. *)
Definition replacement_character : str :=
  String (ascii_of_byte xef) (String (ascii_of_byte xbf)
    (String (ascii_of_byte xbd) "")).

(** The decoder.  [need] continuation bytes are still expected, the next one
    within [lo..hi]; [pend] holds the bytes of the sequence read so far.
    Each error (invalid start byte, invalid continuation byte, unexpected end
    of data) either fails ([replace = false], a [UnicodeDecodeError]) or
    yields one U+FFFD and resumes at the offending byte. *)
Fixpoint utf8_decode (replace : bool) (need : nat) (lo hi : N) (pend : str)
    (b : bytes) : option str :=
  match b with
  | [] =>
      match need with
      | O => Some ""
      | S _ => if replace then Some replacement_character else None
      end
  | x :: t =>
      let c := ascii_of_byte x in
      let n := Byte.to_N x in
      let start :=
        match lead n with
        | Some (O, _, _) => option_map (String c) (utf8_decode replace 0 0 0 "" t)
        | Some (k, lo', hi') => utf8_decode replace k lo' hi' (String c "") t
        | None =>
            if replace
            then option_map (String.append replacement_character)
                   (utf8_decode replace 0 0 0 "" t)
            else None
        end in
      match need with
      | O => start
      | S k =>
          if (lo <=? n) && (n <=? hi) then
            match k with
            | O => option_map (String.append (pend ++ String c "")%string)
                     (utf8_decode replace 0 0 0 "" t)
            | S _ =>
                utf8_decode replace k 0x80 0xBF (pend ++ String c "")%string t
            end
          else if replace
          then option_map (String.append replacement_character) start
          else None
      end
  end.

(** [b.decode('utf-8')]; [None] stands for [UnicodeDecodeError]. *)
Definition decode (b : bytes) : option str := utf8_decode false 0 0 0 "" b.

(** [b.decode('utf-8', errors='replace')]. *)
Definition decode_replace (b : bytes) : str :=
  match utf8_decode true 0 0 0 "" b with
  | Some s => s
  | None => ""
  end.

(** A [dict] literal with integer keys and values, and [k in d] / [d[k]]. *)
Definition dict := list (N * N).

Fixpoint get (d : dict) (k : N) : option N :=
  match d with
  | [] => None
  | (k', v) :: t => if k =? k' then Some v else get t k
  end.

(** Exceptions the script can meet: [struct.error], with its message. *)
Inductive exn := StructError (msg : str).

Definition exn_str (e : exn) : str := match e with StructError m => m end.

End Py.

Import Py.

(** ** The state and the monad

    [unread] holds the bytes of the open file from the current position on;
    [stdout] is everything printed so far. *)
Record world := World { unread : bytes; stdout : str }.

(** How a block of statements ends. *)
Inductive outcome (A : Type) : Type :=
| Normal (a : A)
| Break
| Return
| Raise (e : exn).

Arguments Normal {A} a.
Arguments Break {A}.
Arguments Return {A}.
Arguments Raise {A} e.

Definition M (A : Type) : Type := world -> outcome A * world.

Definition ret {A} (a : A) : M A := fun w => (Normal a, w).

Definition bind {A B} (m : M A) (k : A -> M B) : M B :=
  fun w =>
    match m w with
    | (Normal a, w') => k a w'
    | (Break, w') => (Break, w')
    | (Return, w') => (Return, w')
    | (Raise e, w') => (Raise e, w')
    end.

Notation "x <- m ;; k" := (bind m (fun x => k))
  (at level 61, m at next level, right associativity).
Notation "m ;;; k" := (bind m (fun _ => k))
  (at level 61, right associativity).

Definition break {A} : M A := fun w => (Break, w).
Definition return_ {A} : M A := fun w => (Return, w).
Definition raise {A} (e : exn) : M A := fun w => (Raise e, w).

(** [try: m except Exception as e: h e].  [break] and [return] are not
    exceptions and pass through. *)
Definition try_except {A} (m : M A) (h : exn -> M A) : M A :=
  fun w =>
    match m w with
    | (Raise e, w') => h e w'
    | r => r
    end.

(** [for i in range(start, start + n): body i].  A [break] in the body ends
    the loop normally; [return] and exceptions leave it. *)
Fixpoint for_range (start : N) (n : nat) (body : N -> M unit) : M unit :=
  match n with
  | O => ret tt
  | S n' =>
      fun w =>
        match body start w with
        | (Normal _, w') => for_range (N.succ start) n' body w'
        | (Break, w') => (Normal tt, w')
        | r => r
        end
  end.

(** [f.read(n)]: at most [n] bytes, fewer at the end of the file. *)
Definition f_read (n : N) : M bytes :=
  fun w =>
    (Normal (firstn (N.to_nat n) (unread w)),
     World (skipn (N.to_nat n) (unread w)) (stdout w)).

(** [struct.unpack(fmt, b)[0]] for a format of [size] bytes. *)
Definition unpack (size : N) (b : bytes) : M N :=
  if N.of_nat (List.length b) =? size then ret (le_value b)
  else raise (StructError
                (f ["unpack requires a buffer of "; str_of_int size; " bytes"])).

(** [print(s, end=e)] and [print(s)]. *)
Definition print_end (s e : str) : M unit :=
  fun w => (Normal tt, World (unread w) (stdout w ++ s ++ e)%string).

Definition print (s : str) : M unit := print_end s nl.

(** ** The script *)

Definition CORRUPTED : str := "<CORRUPTED>".
Definition watch_key : str := "tokenizer.ggml.pre".

(** [read_string(f)] *)
Definition read_string : M str :=
  raw <- f_read 8 ;;
  length <- unpack 8 raw ;;
  if 10000 <? length then
    print (f ["Warning: String length "; str_of_int length;
              " seems too large, file may be corrupted"]) ;;;
    ret CORRUPTED
  else
    data <- f_read length ;;
    match decode data with
    | Some s => ret s
    | None => ret (decode_replace data)
    end.

(** The [type_sizes] literal, written twice in the source with the same
    contents. *)
Definition type_sizes : dict :=
  [(0, 1); (1, 1); (2, 1); (3, 2); (4, 2); (5, 4); (6, 4); (7, 4);
   (8, 8); (9, 8); (10, 8)].

Section Value.

(** The two [type_sizes] tables: the one consulted for array elements and the
    one consulted for scalar values. *)
Variables array_sizes scalar_sizes : dict.

(** One element of a STRING array (the body of [for j in range(array_len)]). *)
Definition array_string (j : N) : M unit :=
  raw <- f_read 8 ;;
  str_len <- unpack 8 raw ;;
  if 10000 <? str_len then
    print "      Warning: String in array too large, stopping" ;;;
    return_
  else
    _ <- f_read str_len ;;
    ret tt.

(** "Skip the value data based on type": the [if]/[elif]/[else] on
    [type_value]. *)
Definition skip_value_with (key : str) (type_value : N) : M unit :=
  if type_value =? 8 then
    raw <- f_read 8 ;;
    value_len <- unpack 8 raw ;;
    if 10000 <? value_len then
      print (f ["      Warning: String value length "; str_of_int value_len;
                " too large, skipping"]) ;;;
      break
    else
      value <- f_read value_len ;;
      if String.eqb key watch_key then
        match decode value with
        | Some s => print (f ["      Value: '"; s; "'"])
        | None => print (f ["      Value (hex): "; bytes_hex value])
        end
      else ret tt
  else if type_value =? 9 then
    raw <- f_read 4 ;;
    array_type <- unpack 4 raw ;;
    raw <- f_read 8 ;;
    array_len <- unpack 8 raw ;;
    (if String.eqb key watch_key then
       print (f ["      Array type: "; str_of_int array_type;
                 ", Array length: "; str_of_int array_len])
     else ret tt) ;;;
    if 100000 <? array_len then
      print (f ["      Warning: Array length "; str_of_int array_len;
                " too large, stopping"]) ;;;
      break
    else if array_type =? 8 then
      for_range 0 (N.to_nat array_len) array_string
    else
      match get array_sizes array_type with
      | Some size => _ <- f_read (array_len * size) ;; ret tt
      | None => ret tt
      end
  else
    match get scalar_sizes type_value with
    | Some size => _ <- f_read size ;; ret tt
    | None => ret tt
    end.

End Value.

Definition skip_value : str -> N -> M unit := skip_value_with type_sizes type_sizes.

(** The statements under [try:] for iteration [i]. *)
Definition entry_try (i : N) : M unit :=
  key <- read_string ;;
  if String.eqb key CORRUPTED then
    print (f ["  "; fmt_2d (i + 1); ". Corrupted key, stopping"]) ;;;
    break
  else
    raw <- f_read 4 ;;
    type_value <- unpack 4 raw ;;
    print_end (f ["  "; fmt_2d (i + 1); ". Key: '"; key; "', Type: ";
                  str_of_int type_value]) "" ;;;
    (if String.eqb key watch_key then
       print (f [" *** FOUND tokenizer.ggml.pre with type ";
                 str_of_int type_value; " ***"])
     else print "") ;;;
    skip_value key type_value.

(** The body of [for i in range(min(kv_count, 50))]. *)
Definition entry (i : N) : M unit :=
  try_except (entry_try i)
    (fun e =>
       print (f ["  Error reading key "; str_of_int (i + 1); ": "; exn_str e]) ;;;
       break).

(** [read_gguf_metadata], from the first read on. *)
Definition read_gguf_metadata_body : M unit :=
  raw <- f_read 4 ;;
  magic <- unpack 4 raw ;;
  raw <- f_read 4 ;;
  version <- unpack 4 raw ;;
  raw <- f_read 8 ;;
  tensor_count <- unpack 8 raw ;;
  raw <- f_read 8 ;;
  kv_count <- unpack 8 raw ;;
  print (f ["Magic: "; hex magic; ", Version: "; str_of_int version]) ;;;
  print (f ["Tensor count: "; str_of_int tensor_count; ", KV count: ";
            str_of_int kv_count]) ;;;
  print (f [nl; "Metadata keys:"]) ;;;
  for_range 0 (N.to_nat (N.min kv_count 50)) entry.

(** [read_gguf_metadata(filename)] on a file with the given contents, standard
    output being empty at the start. *)
Definition read_gguf_metadata (content : bytes) : outcome unit * world :=
  read_gguf_metadata_body (World content "").

(** ** The on-disk format, as the script consumes it

    Encoders for the fixed-width fields and a data model of one metadata
    entry.  They are used to describe inputs; the script itself only reads. *)

Definition byte_of_N (n : N) : byte :=
  match Byte.of_N (n mod 256) with
  | Some b => b
  | None => x00
  end.

Fixpoint le_bytes (k : nat) (n : N) : bytes :=
  match k with
  | O => []
  | S k' => byte_of_N n :: le_bytes k' (n / 256)
  end.

Definition u32 (n : N) : bytes := le_bytes 4 n.
Definition u64 (n : N) : bytes := le_bytes 8 n.

Definition len (b : bytes) : N := N.of_nat (List.length b).

(** The value of an entry, by the branch of the script that consumes it. *)
Inductive value : Type :=
| VString (payload : bytes)
| VStringArray (elems : list bytes)
| VArray (array_type count : N) (payload : bytes)
| VScalar (type_value : N) (payload : bytes).

Record kv : Type := KV { kv_key : bytes; kv_value : value }.

Definition type_code (v : value) : N :=
  match v with
  | VString _ => 8
  | VStringArray _ => 9
  | VArray _ _ _ => 9
  | VScalar t _ => t
  end.

Definition encode_string (b : bytes) : bytes := u64 (len b) ++ b.

Definition encode_value (v : value) : bytes :=
  match v with
  | VString p => encode_string p
  | VStringArray l => u32 8 ++ u64 (N.of_nat (List.length l)) ++ flat_map encode_string l
  | VArray t n p => u32 t ++ u64 n ++ p
  | VScalar _ p => p
  end.

Definition encode_kv (e : kv) : bytes :=
  encode_string (kv_key e) ++ u32 (type_code (kv_value e)) ++ encode_value (kv_value e).

(** The four header fields, in file order. *)
Record header : Type :=
  Header { magic : N; version : N; tensor_count : N; kv_count : N }.

Definition encode_header (h : header) : bytes :=
  u32 (magic h) ++ u32 (version h) ++ u64 (tensor_count h) ++ u64 (kv_count h).

Definition header_fits (h : header) : bool :=
  (magic h <? 2 ^ 32) && (version h <? 2 ^ 32)
  && (tensor_count h <? 2 ^ 64) && (kv_count h <? 2 ^ 64).

(** The text [read_string] returns for key bytes within the ceiling. *)
Definition key_text (b : bytes) : str :=
  match decode b with
  | Some s => s
  | None => decode_replace b
  end.

(** Bytes the script skips for a code looked up in [type_sizes]. *)
Definition width (t : N) : N :=
  match get type_sizes t with
  | Some size => size
  | None => 0
  end.

(** An entry the script reads to its end and steps over: every length is
    within its ceiling, the payload is present in full, and the key is not
    the sentinel text. *)
Definition wf_value (v : value) : bool :=
  match v with
  | VString p => len p <=? 10000
  | VStringArray l =>
      (N.of_nat (List.length l) <=? 100000) && forallb (fun e => len e <=? 10000) l
  | VArray t n p =>
      negb (t =? 8) && (t <? 2 ^ 32) && (n <=? 100000) && (len p =? n * width t)
  | VScalar t p =>
      negb (t =? 8) && negb (t =? 9) && (t <? 2 ^ 32) && (len p =? width t)
  end.

Definition wf_kv (e : kv) : bool :=
  (len (kv_key e) <=? 10000) && negb (String.eqb (key_text (kv_key e)) CORRUPTED)
  && wf_value (kv_value e).

(** What the script prints for such an entry at iteration [i]. *)
Definition entry_line (i : N) (key : str) (type_value : N) : str :=
  f ["  "; fmt_2d (i + 1); ". Key: '"; key; "', Type: "; str_of_int type_value].

Definition found_marker (type_value : N) : str :=
  f [" *** FOUND tokenizer.ggml.pre with type "; str_of_int type_value; " ***"].

Definition value_detail (v : value) : str :=
  match v with
  | VString p =>
      match decode p with
      | Some s => (f ["      Value: '"; s; "'"] ++ nl)%string
      | None => (f ["      Value (hex): "; bytes_hex p] ++ nl)%string
      end
  | VStringArray l =>
      (f ["      Array type: "; str_of_int 8; ", Array length: ";
          str_of_int (N.of_nat (List.length l))] ++ nl)%string
  | VArray t n _ =>
      (f ["      Array type: "; str_of_int t; ", Array length: "; str_of_int n]
       ++ nl)%string
  | VScalar _ _ => ""
  end.

Definition entry_report (i : N) (e : kv) : str :=
  let key := key_text (kv_key e) in
  let t := type_code (kv_value e) in
  if String.eqb key watch_key
  then (entry_line i key t ++ found_marker t ++ nl ++ value_detail (kv_value e))%string
  else (entry_line i key t ++ nl)%string.

Fixpoint entries_report (i : N) (es : list kv) : str :=
  match es with
  | [] => ""
  | e :: t => (entry_report i e ++ entries_report (N.succ i) t)%string
  end.

Definition header_report (h : header) : str :=
  (f ["Magic: "; hex (magic h); ", Version: "; str_of_int (version h)] ++ nl
   ++ f ["Tensor count: "; str_of_int (tensor_count h); ", KV count: ";
         str_of_int (kv_count h)] ++ nl
   ++ f [nl; "Metadata keys:"] ++ nl)%string.

(** A file: the header, entries [es], then [tail]; and what the script has
    printed once it has stepped over [es]. *)
Definition gguf (h : header) (es : list kv) (tail : bytes) : bytes :=
  encode_header h ++ flat_map encode_kv es ++ tail.

Definition report_before (h : header) (es : list kv) : str :=
  (header_report h ++ entries_report 0 es)%string.

(** The loop gets as far as the entry that follows [es]. *)
Definition reaches (h : header) (es : list kv) : bool :=
  N.of_nat (List.length es) <? N.min (kv_count h) 50.

(** Iterations left once that entry has been handled. *)
Definition remaining (h : header) (es : list kv) : nat :=
  (N.to_nat (N.min (kv_count h) 50) - S (List.length es))%nat.

(** ** Lines of the report *)

(** The warning [read_string] prints for a length over the ceiling. *)
Definition length_warning (n : N) : str :=
  f ["Warning: String length "; str_of_int n;
     " seems too large, file may be corrupted"].

(** The lines the entry loop prints when it gives up. *)
Definition corrupted_key_line (i : N) : str :=
  f ["  "; fmt_2d (i + 1); ". Corrupted key, stopping"].

Definition value_length_warning (n : N) : str :=
  f ["      Warning: String value length "; str_of_int n; " too large, skipping"].

Definition array_length_warning (n : N) : str :=
  f ["      Warning: Array length "; str_of_int n; " too large, stopping"].

Definition array_string_warning : str :=
  "      Warning: String in array too large, stopping".

(** What follows the entry text on its line: the marker for the watch-list
    key, and the end of the line. *)
Definition line_end (key : str) (type_value : N) : str :=
  if String.eqb key watch_key then (found_marker type_value ++ nl)%string else nl.

(** The detail lines, printed for the watch-list key only. *)
Definition detail_for (key : str) (v : value) : str :=
  if String.eqb key watch_key then value_detail v else "".

Definition array_detail (key : str) (array_type array_len : N) : str :=
  if String.eqb key watch_key
  then (f ["      Array type: "; str_of_int array_type; ", Array length: ";
           str_of_int array_len] ++ nl)%string
  else "".

Definition value_line (p : bytes) : str :=
  match decode p with
  | Some s => f ["      Value: '"; s; "'"]
  | None => f ["      Value (hex): "; bytes_hex p]
  end.

(** The exception a header read raises on a file of fewer than 24 bytes:
    the first two fields are read with format [<I], the other two with
    [<Q]. *)
Definition header_error (content : bytes) : exn :=
  StructError
    (f ["unpack requires a buffer of ";
        str_of_int (if len content <? 8 then 4 else 8); " bytes"]).

(** Standard output only grows across [m]. *)
Definition appends {A} (m : M A) : Prop :=
  forall w, exists s, stdout (snd (m w)) = (stdout w ++ s)%string.

(** Entries the format allows, the sentinel text included among the keys. *)
Definition fits_format (e : kv) : bool :=
  (len (kv_key e) <=? 10000) && wf_value (kv_value e).

(** The spec's Type Table (section 4.3), following its words: widths for
    codes 0 to 7 and 10, with codes 8 and 9 left out. *)
Definition width_of (code : N) : option N :=
  get [(0, 1); (1, 1); (2, 1); (3, 2); (4, 2); (5, 4); (6, 4); (7, 4); (10, 8)]
    code.

(** ** Sample files *)

(** A bytes literal. *)
Definition b (s : string) : bytes := list_byte_of_string s.

Definition sample_header : header := Header 0x46554747 3 0 3.

Definition sample_entries : list kv :=
  [KV (b "name") (VString (b "hello"))].

Definition plain_entry : kv := KV (b "k") (VScalar 0 [x2a]).

(** One hundred entries the format allows, the first with the sentinel text
    as its key. *)
Definition sentinel_first : list kv :=
  KV (b "<CORRUPTED>") (VScalar 5 (u32 7)) :: repeat plain_entry 99.

(** One ARRAY entry with element type 9 and one element. *)
Definition array_of_9 : bytes :=
  gguf (Header 0x46554747 3 0 1) []
    (encode_string (b "k") ++ u32 9 ++ u32 9 ++ u64 1 ++ b "12345678" ++ b "TAIL").

(** One entry with the unknown type code 11. *)
Definition unknown_code_file : bytes :=
  gguf (Header 0x46554747 3 0 1) [] (encode_string (b "k") ++ u32 11).

(** ** The command line ([if __name__ == "__main__"])

    [fs] gives the contents of the files that can be opened; [open] raises
    for the others.  A process yields what was printed on standard output and the
    exit status of the interpreter: 1 after [sys.exit(1)] and after an
    uncaught exception, 0 otherwise. *)
Record process : Type := Process { printed : str; status : N }.

Definition main (fs : str -> option bytes) (argv : list str) : process :=
  if negb (Nat.eqb (List.length argv) 2) then
    Process ("Usage: python3 debug_gguf.py <gguf_file>" ++ nl)%string 1
  else
    match fs (nth 1 argv "") with
    | None => Process "" 1
    | Some content =>
        match read_gguf_metadata content with
        | (Raise _, w) => Process (stdout w) 1
        | (_, w) => Process (stdout w) 0
        end
    end.

(** The header fields as the script decodes them from the first 24 bytes. *)
Definition parse_header (content : bytes) : header :=
  Header (le_value (firstn 4 content))
         (le_value (firstn 4 (skipn 4 content)))
         (le_value (firstn 8 (skipn 8 content)))
         (le_value (firstn 8 (skipn 16 content))).

(** The line the [except] clause prints for a [struct.error] on a read of
    [size] bytes in iteration [i]. *)
Definition error_line (i size : N) : str :=
  f ["  Error reading key "; str_of_int (i + 1); ": ";
     f ["unpack requires a buffer of "; str_of_int size; " bytes"]].


(** ** Model identifiers ([verify_fix.py])

    Here a [str] is iterated character by character, so it is kept as the
    list of its code points. *)
Module VerifyFix.

Definition text := list N.

(** The code points of an ASCII literal. *)
Definition lit (s : string) : text := map N_of_ascii (list_ascii_of_string s).

Section Normalize.

(** [c.isalnum()] for a character outside ASCII, as the Unicode database of
    the interpreter decides it. *)
Variable isalnum_unicode : N -> bool.

(** [c.isalnum()] for one character. *)
Definition isalnum (c : N) : bool :=
  if c <? 128 then
    ((48 <=? c) && (c <=? 57)) || ((65 <=? c) && (c <=? 90))
    || ((97 <=? c) && (c <=? 122))
  else isalnum_unicode c.

(** [c.isalnum() or c in ['_', '-', '.']] *)
Definition kept (c : N) : bool :=
  isalnum c || existsb (N.eqb c) [95; 45; 46].

(** [normalize_model_id(model_name)]: the loop appends to [result]. *)
Definition normalize_model_id (model_name : text) : text :=
  let model_id := model_name in
  fold_left (fun result c => if kept c then result ++ [c] else result ++ [95])
    model_id [].

End Normalize.

(** The target case of [test_normalization]. *)
Definition target_model : text := lit "registry.ollama.ai/library/qwen2.5vl:7b".
Definition expected_normalized : text := lit "registry.ollama.ai_library_qwen2.5vl_7b".

End VerifyFix.

(** ** Basic facts *)

Lemma append_assoc (a b c : string) : ((a ++ b) ++ c = a ++ (b ++ c))%string.
Proof. induction a as [|x a IH]; simpl; [reflexivity | now rewrite IH]. Qed.

Lemma append_nil_r (a : string) : (a ++ "" = a)%string.
Proof. induction a as [|x a IH]; simpl; [reflexivity | now rewrite IH]. Qed.

Lemma to_N_byte_of_N (n : N) : Byte.to_N (byte_of_N n) = n mod 256.
Proof.
  unfold byte_of_N.
  destruct (Byte.of_N (n mod 256)) as [b|] eqn:E.
  - now apply Byte.to_of_N.
  - apply Byte.of_N_None_iff in E.
    pose proof (N.mod_upper_bound n 256). lia.
Qed.

Lemma length_le_bytes (k : nat) (n : N) : List.length (le_bytes k n) = k.
Proof. revert n; induction k as [|k IH]; intros n; simpl; [reflexivity | now rewrite IH]. Qed.

Lemma le_value_le_bytes (k : nat) (n : N) :
  le_value (le_bytes k n) = n mod 256 ^ N.of_nat k.
Proof.
  revert n; induction k as [|k IH]; intros n.
  - simpl. now rewrite N.mod_1_r.
  - cbn [le_bytes le_value]. rewrite to_N_byte_of_N, IH.
    rewrite Nat2N.inj_succ, N.pow_succ_r'.
    rewrite N.Div0.mod_mul_r. lia.
Qed.

Lemma le_value_u32 (n : N) : n < 2 ^ 32 -> le_value (u32 n) = n.
Proof.
  intros H. unfold u32. rewrite le_value_le_bytes.
  apply N.mod_small. exact H.
Qed.

Lemma le_value_u64 (n : N) : n < 2 ^ 64 -> le_value (u64 n) = n.
Proof.
  intros H. unfold u64. rewrite le_value_le_bytes.
  apply N.mod_small. exact H.
Qed.

Lemma length_u32 (n : N) : List.length (u32 n) = 4%nat.
Proof. apply length_le_bytes. Qed.

Lemma length_u64 (n : N) : List.length (u64 n) = 8%nat.
Proof. apply length_le_bytes. Qed.

(** ** Running the primitives *)

Arguments f : simpl never.
Arguments str_of_int : simpl never.
Arguments fmt_2d : simpl never.
Arguments hex : simpl never.

Lemma bind_normal {A B} (m : M A) (k : A -> M B) (w w' : world) (a : A) :
  m w = (Normal a, w') -> bind m k w = k a w'.
Proof. intros H. unfold bind. now rewrite H. Qed.

Lemma bind_break {A B} (m : M A) (k : A -> M B) (w w' : world) :
  m w = (Break, w') -> bind m k w = (Break, w').
Proof. intros H. unfold bind. now rewrite H. Qed.

Lemma bind_return {A B} (m : M A) (k : A -> M B) (w w' : world) :
  m w = (Return, w') -> bind m k w = (Return, w').
Proof. intros H. unfold bind. now rewrite H. Qed.

Lemma bind_raise {A B} (m : M A) (k : A -> M B) (w w' : world) (e : exn) :
  m w = (Raise e, w') -> bind m k w = (Raise e, w').
Proof. intros H. unfold bind. now rewrite H. Qed.

Lemma f_read_app (n : N) (b rest : bytes) (out : str) :
  n = len b ->
  f_read n (World (b ++ rest) out) = (Normal b, World rest out).
Proof.
  intros ->. unfold f_read, len. cbn [unread stdout].
  rewrite Nat2N.id.
  rewrite firstn_app, Nat.sub_diag, firstn_all, firstn_O, app_nil_r.
  rewrite skipn_app, Nat.sub_diag, skipn_all. reflexivity.
Qed.

Lemma unpack_ok (size : N) (b : bytes) (w : world) :
  len b = size -> unpack size b w = (Normal (le_value b), w).
Proof.
  intros H. unfold unpack. fold (len b). rewrite H, N.eqb_refl. reflexivity.
Qed.

Lemma unpack_short (size : N) (b : bytes) (w : world) :
  len b <> size ->
  unpack size b w =
  (Raise (StructError (f ["unpack requires a buffer of "; str_of_int size; " bytes"])), w).
Proof.
  intros H. unfold unpack. fold (len b).
  apply N.eqb_neq in H. rewrite H. reflexivity.
Qed.

(** Reading one fixed-width field that is present in full. *)
Lemma read_field {B} (size : N) (b rest : bytes) (out : str) (k : N -> M B) :
  len b = size ->
  (raw <- f_read size ;; v <- unpack size raw ;; k v) (World (b ++ rest) out)
  = k (le_value b) (World rest out).
Proof.
  intros H.
  rewrite (bind_normal _ _ _ _ _ (f_read_app size b rest out (eq_sym H))).
  now rewrite (bind_normal _ _ _ _ _ (unpack_ok size b _ H)).
Qed.

Lemma read_u32 {B} (n : N) (rest : bytes) (out : str) (k : N -> M B) :
  n < 2 ^ 32 ->
  (raw <- f_read 4 ;; v <- unpack 4 raw ;; k v) (World (u32 n ++ rest) out)
  = k n (World rest out).
Proof.
  intros H. rewrite read_field.
  - now rewrite le_value_u32.
  - unfold len. now rewrite length_u32.
Qed.

Lemma read_u64 {B} (n : N) (rest : bytes) (out : str) (k : N -> M B) :
  n < 2 ^ 64 ->
  (raw <- f_read 8 ;; v <- unpack 8 raw ;; k v) (World (u64 n ++ rest) out)
  = k n (World rest out).
Proof.
  intros H. rewrite read_field.
  - now rewrite le_value_u64.
  - unfold len. now rewrite length_u64.
Qed.

Lemma print_run (s : str) (u : bytes) (out : str) :
  print s (World u out) = (Normal tt, World u (out ++ s ++ nl)%string).
Proof. reflexivity. Qed.

Lemma print_then {B} (s : str) (u : bytes) (out : str) (k : M B) :
  (print s ;;; k) (World u out) = k (World u (out ++ s ++ nl)%string).
Proof. reflexivity. Qed.

(** ** [read_string] *)

Lemma read_string_overflow (n : N) (rest : bytes) (out : str) :
  10000 < n -> n < 2 ^ 64 ->
  read_string (World (u64 n ++ rest) out)
  = (Normal CORRUPTED, World rest (out ++ length_warning n ++ nl)%string).
Proof.
  intros Hbig Hn. unfold read_string. rewrite read_u64 by exact Hn.
  apply N.ltb_lt in Hbig. rewrite Hbig. reflexivity.
Qed.

Lemma len_bound_u64 (n : N) : n <= 100000 -> n < 2 ^ 64.
Proof. intros H. eapply N.le_lt_trans; [exact H | reflexivity]. Qed.

Lemma read_string_ok (b rest : bytes) (out : str) :
  len b <= 10000 ->
  read_string (World (encode_string b ++ rest) out)
  = (Normal (key_text b), World rest out).
Proof.
  intros H. unfold read_string, encode_string. rewrite <- app_assoc.
  rewrite read_u64 by (apply len_bound_u64; lia).
  apply N.ltb_ge in H. rewrite H.
  rewrite (bind_normal _ _ _ _ _ (f_read_app (len b) b rest out eq_refl)).
  unfold key_text. destruct (decode b); reflexivity.
Qed.

(** ** The [for] loop *)

Lemma for_range_normal (body : N -> M unit) (i : N) (n : nat) (w w' : world) (u : unit) :
  body i w = (Normal u, w') ->
  for_range i (S n) body w = for_range (N.succ i) n body w'.
Proof. intros H. cbn [for_range]. now rewrite H. Qed.

Lemma for_range_break (body : N -> M unit) (i : N) (n : nat) (w w' : world) :
  body i w = (Break, w') ->
  for_range i (S n) body w = (Normal tt, w').
Proof. intros H. cbn [for_range]. now rewrite H. Qed.

Lemma for_range_return (body : N -> M unit) (i : N) (n : nat) (w w' : world) :
  body i w = (Return, w') ->
  for_range i (S n) body w = (Return, w').
Proof. intros H. cbn [for_range]. now rewrite H. Qed.

Lemma for_range_raise (body : N -> M unit) (i : N) (n : nat) (w w' : world) (e : exn) :
  body i w = (Raise e, w') ->
  for_range i (S n) body w = (Raise e, w').
Proof. intros H. cbn [for_range]. now rewrite H. Qed.

(** ** Array elements *)

Lemma array_string_ok (j : N) (b rest : bytes) (out : str) :
  len b <= 10000 ->
  array_string j (World (encode_string b ++ rest) out) = (Normal tt, World rest out).
Proof.
  intros H. unfold array_string, encode_string. rewrite <- app_assoc.
  rewrite read_u64 by (apply len_bound_u64; lia).
  apply N.ltb_ge in H. rewrite H.
  now rewrite (bind_normal _ _ _ _ _ (f_read_app (len b) b rest out eq_refl)).
Qed.

Lemma array_string_overflow (j n : N) (rest : bytes) (out : str) :
  10000 < n -> n < 2 ^ 64 ->
  array_string j (World (u64 n ++ rest) out)
  = (Return, World rest (out ++ array_string_warning ++ nl)%string).
Proof.
  intros Hbig Hn. unfold array_string. rewrite read_u64 by exact Hn.
  apply N.ltb_lt in Hbig. rewrite Hbig. reflexivity.
Qed.

(** Elements within the ceiling are stepped over one by one. *)
Lemma array_strings_ok (l : list bytes) (j : N) (m : nat) (rest : bytes) (out : str) :
  forallb (fun e => len e <=? 10000) l = true ->
  for_range j (List.length l + m) array_string
    (World (flat_map encode_string l ++ rest) out)
  = for_range (j + N.of_nat (List.length l)) m array_string (World rest out).
Proof.
  revert j. induction l as [|e l IH]; intros j H.
  - cbn [List.length flat_map Nat.add app]. now rewrite N.add_0_r.
  - cbn [forallb] in H. apply andb_true_iff in H as [He Hl].
    apply N.leb_le in He.
    cbn [List.length flat_map Nat.add]. rewrite <- app_assoc.
    rewrite (for_range_normal _ _ _ _ _ _ (array_string_ok j e _ out He)).
    rewrite IH by exact Hl. f_equal. lia.
Qed.

(** ** Values of well-formed entries *)

Lemma skip_bytes (size : N) (b rest : bytes) (out : str) :
  len b = size ->
  (_ <- f_read size ;; ret tt) (World (b ++ rest) out) = (Normal tt, World rest out).
Proof.
  intros H.
  now rewrite (bind_normal _ _ _ _ _ (f_read_app size b rest out (eq_sym H))).
Qed.

Lemma len_0_nil (b : bytes) : len b = 0 -> b = [].
Proof. destruct b; [reflexivity | unfold len; cbn [List.length]; lia]. Qed.

Lemma skip_value_wf (key : str) (v : value) (rest : bytes) (out : str) :
  wf_value v = true ->
  skip_value key (type_code v) (World (encode_value v ++ rest) out)
  = (Normal tt, World rest (out ++ detail_for key v)%string).
Proof.
  intros H. unfold skip_value, skip_value_with, detail_for.
  destruct v as [p | l | t n p | t p]; cbn [type_code encode_value wf_value value_detail] in *.
  - (* STRING *)
    change (8 =? 8) with true. cbv iota.
    apply N.leb_le in H. unfold encode_string. rewrite <- app_assoc.
    rewrite read_u64 by (apply len_bound_u64; lia).
    apply N.ltb_ge in H. rewrite H.
    rewrite (bind_normal _ _ _ _ _ (f_read_app (len p) p rest out eq_refl)).
    destruct (String.eqb key watch_key).
    + destruct (decode p); reflexivity.
    + unfold ret. now rewrite append_nil_r.
  - (* ARRAY of STRING *)
    change (9 =? 8) with false. change (9 =? 9) with true. cbv iota.
    apply andb_true_iff in H as [Hn Hl]. apply N.leb_le in Hn.
    rewrite <- !app_assoc.
    rewrite read_u32 by reflexivity.
    rewrite read_u64 by (apply len_bound_u64; exact Hn).
    change (8 =? 8) with true. cbv iota.
    apply N.ltb_ge in Hn.
    pose proof (array_strings_ok l 0 0 rest) as Hloop.
    rewrite Nat.add_0_r in Hloop. rewrite Nat2N.id.
    destruct (String.eqb key watch_key).
    + rewrite print_then. rewrite Hn. now rewrite Hloop.
    + unfold bind at 1, ret at 1. rewrite Hn, Hloop by exact Hl.
      cbn [for_range]. unfold ret. now rewrite append_nil_r.
  - (* ARRAY of fixed-width or unknown elements *)
    change (9 =? 8) with false. change (9 =? 9) with true. cbv iota.
    apply andb_true_iff in H as [H Hp]. apply andb_true_iff in H as [H Hn].
    apply andb_true_iff in H as [Ht8 Ht]. apply negb_true_iff in Ht8.
    apply N.ltb_lt in Ht. apply N.leb_le in Hn. apply N.eqb_eq in Hp.
    rewrite <- !app_assoc.
    rewrite read_u32 by exact Ht.
    rewrite read_u64 by (apply len_bound_u64; exact Hn).
    rewrite Ht8. apply N.ltb_ge in Hn. unfold width in Hp.
    assert (Hskip : forall o,
      match get type_sizes t with
      | Some size => _ <- f_read (n * size) ;; ret tt
      | None => ret tt
      end (World (p ++ rest) o) = (Normal tt, World rest o)).
    { intros o. destruct (get type_sizes t) as [size|].
      - now apply skip_bytes.
      - rewrite N.mul_0_r in Hp. apply len_0_nil in Hp. subst p. reflexivity. }
    destruct (String.eqb key watch_key).
    + rewrite print_then. rewrite Hn. now rewrite Hskip.
    + unfold bind at 1, ret at 1. rewrite Hn, Hskip. now rewrite append_nil_r.
  - (* other codes *)
    apply andb_true_iff in H as [H Hp]. apply andb_true_iff in H as [H Ht].
    apply andb_true_iff in H as [Ht8 Ht9].
    apply negb_true_iff in Ht8. apply negb_true_iff in Ht9.
    apply N.eqb_eq in Hp. rewrite Ht8, Ht9. unfold width in Hp.
    assert (Hd : (out ++ detail_for key (VScalar t p))%string = out).
    { unfold detail_for. cbn [value_detail].
      destruct (String.eqb key watch_key); apply append_nil_r. }
    unfold detail_for in Hd. cbn [value_detail] in Hd. rewrite Hd.
    destruct (get type_sizes t) as [size|].
    + now apply skip_bytes.
    + apply len_0_nil in Hp. subst p. reflexivity.
Qed.

(** ** One well-formed entry, then a run of them *)

Lemma type_code_bound (v : value) : wf_value v = true -> type_code v < 2 ^ 32.
Proof.
  destruct v as [p | l | t n p | t p]; cbn [type_code wf_value]; intros H;
    try reflexivity.
  apply andb_true_iff in H as [H _]. apply andb_true_iff in H as [_ H].
  now apply N.ltb_lt.
Qed.

Lemma try_except_normal {A} (m : M A) (h : exn -> M A) (w w' : world) (a : A) :
  m w = (Normal a, w') -> try_except m h w = (Normal a, w').
Proof. intros H. unfold try_except. now rewrite H. Qed.

Lemma try_except_break {A} (m : M A) (h : exn -> M A) (w w' : world) :
  m w = (Break, w') -> try_except m h w = (Break, w').
Proof. intros H. unfold try_except. now rewrite H. Qed.

Lemma try_except_return {A} (m : M A) (h : exn -> M A) (w w' : world) :
  m w = (Return, w') -> try_except m h w = (Return, w').
Proof. intros H. unfold try_except. now rewrite H. Qed.

(** The part of [entry_try] up to and including the entry line, for a key
    that is present, within the ceiling and not the sentinel text. *)
Lemma entry_try_prefix (i : N) (k : bytes) (t : N) (rest : bytes) (out : str) :
  len k <= 10000 ->
  String.eqb (key_text k) CORRUPTED = false ->
  t < 2 ^ 32 ->
  entry_try i (World (encode_string k ++ u32 t ++ rest) out)
  = skip_value (key_text k) t
      (World rest (out ++ entry_line i (key_text k) t ++ line_end (key_text k) t)%string).
Proof.
  intros Hk Hc Ht. unfold entry_try.
  rewrite (bind_normal _ _ _ _ _ (read_string_ok k _ out Hk)).
  rewrite Hc. rewrite read_u32 by exact Ht.
  unfold line_end, entry_line, found_marker.
  destruct (String.eqb (key_text k) watch_key); cbv [bind print_end print];
    cbn [unread stdout]; rewrite append_nil_r, !append_assoc; reflexivity.
Qed.

Lemma entry_report_eq (i : N) (e : kv) :
  entry_report i e
  = (entry_line i (key_text (kv_key e)) (type_code (kv_value e))
     ++ line_end (key_text (kv_key e)) (type_code (kv_value e))
     ++ detail_for (key_text (kv_key e)) (kv_value e))%string.
Proof.
  unfold entry_report, line_end, detail_for.
  destruct (String.eqb (key_text (kv_key e)) watch_key).
  - now rewrite !append_assoc.
  - now rewrite append_nil_r.
Qed.

Lemma entry_try_wf (i : N) (e : kv) (rest : bytes) (out : str) :
  wf_kv e = true ->
  entry_try i (World (encode_kv e ++ rest) out)
  = (Normal tt, World rest (out ++ entry_report i e)%string).
Proof.
  intros H. unfold wf_kv in H.
  apply andb_true_iff in H as [H Hv]. apply andb_true_iff in H as [Hk Hc].
  apply N.leb_le in Hk. apply negb_true_iff in Hc.
  unfold encode_kv. rewrite <- !app_assoc.
  rewrite entry_try_prefix by (auto using type_code_bound).
  rewrite skip_value_wf by exact Hv.
  now rewrite entry_report_eq, !append_assoc.
Qed.

Lemma entry_wf (i : N) (e : kv) (rest : bytes) (out : str) :
  wf_kv e = true ->
  entry i (World (encode_kv e ++ rest) out)
  = (Normal tt, World rest (out ++ entry_report i e)%string).
Proof.
  intros H. unfold entry. apply try_except_normal. now apply entry_try_wf.
Qed.

Lemma entries_wf (es : list kv) (i : N) (m : nat) (rest : bytes) (out : str) :
  forallb wf_kv es = true ->
  for_range i (List.length es + m) entry
    (World (flat_map encode_kv es ++ rest) out)
  = for_range (i + N.of_nat (List.length es)) m entry
      (World rest (out ++ entries_report i es)%string).
Proof.
  revert i out. induction es as [|e es IH]; intros i out H.
  - cbn [List.length flat_map Nat.add app entries_report].
    now rewrite N.add_0_r, append_nil_r.
  - cbn [forallb] in H. apply andb_true_iff in H as [He Hes].
    cbn [List.length flat_map Nat.add entries_report]. rewrite <- app_assoc.
    rewrite (for_range_normal _ _ _ _ _ _ (entry_wf i e _ out He)).
    rewrite IH by exact Hes. rewrite append_assoc.
    replace (N.succ i + N.of_nat (List.length es))
      with (i + N.of_nat (S (List.length es))) by lia.
    reflexivity.
Qed.

(** ** The header *)

Lemma header_ok (h : header) (tail : bytes) :
  header_fits h = true ->
  read_gguf_metadata (encode_header h ++ tail)
  = for_range 0 (N.to_nat (N.min (kv_count h) 50)) entry
      (World tail (header_report h)).
Proof.
  intros H. unfold header_fits in H.
  apply andb_true_iff in H as [H Hk]. apply andb_true_iff in H as [H Ht].
  apply andb_true_iff in H as [Hm Hv].
  apply N.ltb_lt in Hm, Hv, Ht, Hk.
  unfold read_gguf_metadata, read_gguf_metadata_body, encode_header.
  rewrite <- !app_assoc.
  rewrite read_u32 by exact Hm. rewrite read_u32 by exact Hv.
  rewrite read_u64 by exact Ht. rewrite read_u64 by exact Hk.
  rewrite !print_then. unfold header_report.
  now rewrite !append_assoc.
Qed.

(** With fewer than [min(kv_count, 50)] well-formed entries in front of
    [tail], the loop arrives at [tail] with iteration index [length es]. *)
Lemma run_to (h : header) (es : list kv) (tail : bytes) :
  header_fits h = true -> forallb wf_kv es = true -> reaches h es = true ->
  read_gguf_metadata (gguf h es tail)
  = for_range (N.of_nat (List.length es)) (S (remaining h es)) entry
      (World tail (report_before h es)).
Proof.
  intros Hh Hes Hr. apply N.ltb_lt in Hr.
  unfold gguf, report_before, remaining. rewrite header_ok by exact Hh.
  replace (N.to_nat (N.min (kv_count h) 50))
    with (List.length es
          + S (N.to_nat (N.min (kv_count h) 50) - S (List.length es)))%nat
    at 1 by lia.
  now rewrite entries_wf by exact Hes.
Qed.

(** With at least [min(kv_count, 50)] well-formed entries after the header,
    the loop steps over exactly that many and ends. *)
Lemma run_capped (h : header) (es : list kv) (tail : bytes) :
  header_fits h = true -> forallb wf_kv es = true -> reaches h es = false ->
  let c := N.to_nat (N.min (kv_count h) 50) in
  read_gguf_metadata (gguf h es tail)
  = (Normal tt,
     World (flat_map encode_kv (skipn c es) ++ tail)
       (report_before h (firstn c es))).
Proof.
  intros Hh Hes Hr c. apply N.ltb_ge in Hr.
  assert (Hc : (c <= List.length es)%nat) by (unfold c; lia).
  unfold gguf, report_before. rewrite header_ok by exact Hh. fold c.
  rewrite <- (firstn_skipn c es) at 1.
  rewrite flat_map_app, <- app_assoc.
  assert (Hlen : List.length (firstn c es) = c) by (rewrite length_firstn; lia).
  rewrite <- Hlen at 1. rewrite <- (Nat.add_0_r (List.length (firstn c es))).
  rewrite entries_wf.
  - reflexivity.
  - rewrite <- (firstn_skipn c es) in Hes. rewrite forallb_app in Hes.
    now apply andb_true_iff in Hes as [Hes _].
Qed.

(** ** Standard output is append-only

    Whatever a block does, what was printed before it stays printed. *)

Lemma appends_silent {A} (m : M A) :
  (forall w, stdout (snd (m w)) = stdout w) -> appends m.
Proof. intros H w. exists "". now rewrite H, append_nil_r. Qed.

Lemma appends_ret {A} (a : A) : appends (ret a).
Proof. now apply appends_silent. Qed.

Lemma appends_break {A} : appends (@break A).
Proof. now apply appends_silent. Qed.

Lemma appends_return {A} : appends (@return_ A).
Proof. now apply appends_silent. Qed.

Lemma appends_f_read (n : N) : appends (f_read n).
Proof. now apply appends_silent. Qed.

Lemma appends_unpack (size : N) (b : bytes) : appends (unpack size b).
Proof.
  apply appends_silent. intros w. unfold unpack.
  now destruct (N.of_nat (List.length b) =? size).
Qed.

Lemma appends_print_end (s e : str) : appends (print_end s e).
Proof. intros w. now exists (s ++ e)%string. Qed.

Lemma appends_print (s : str) : appends (print s).
Proof. apply appends_print_end. Qed.

Lemma appends_bind {A B} (m : M A) (k : A -> M B) :
  appends m -> (forall a, appends (k a)) -> appends (bind m k).
Proof.
  intros Hm Hk w. destruct (Hm w) as [s Hs]. unfold bind.
  destruct (m w) as [[a | | | e] w'] eqn:E; cbn [snd] in *; try (now exists s).
  destruct (Hk a w') as [s' Hs']. exists (s ++ s')%string.
  now rewrite Hs', Hs, append_assoc.
Qed.

Lemma appends_try_except {A} (m : M A) (h : exn -> M A) :
  appends m -> (forall e, appends (h e)) -> appends (try_except m h).
Proof.
  intros Hm Hh w. destruct (Hm w) as [s Hs]. unfold try_except.
  destruct (m w) as [[a | | | e] w'] eqn:E; cbn [snd] in *; try (now exists s).
  destruct (Hh e w') as [s' Hs']. exists (s ++ s')%string.
  now rewrite Hs', Hs, append_assoc.
Qed.

Lemma appends_for_range (body : N -> M unit) (n : nat) :
  (forall i, appends (body i)) -> forall i, appends (for_range i n body).
Proof.
  intros Hb. induction n as [|n IH]; intros i w.
  - exists "". cbn. now rewrite append_nil_r.
  - destruct (Hb i w) as [s Hs]. cbn [for_range].
    destruct (body i w) as [[a | | | e] w'] eqn:E; cbn [snd] in *;
      try (now exists s).
    destruct (IH (N.succ i) w') as [s' Hs']. exists (s ++ s')%string.
    now rewrite Hs', Hs, append_assoc.
Qed.

Ltac appends_step :=
  first
    [ apply appends_ret | apply appends_break | apply appends_return
    | apply appends_f_read | apply appends_unpack
    | apply appends_print | apply appends_print_end
    | apply appends_bind; [ | intros ? ]
    | match goal with
      | |- appends (if ?b then _ else _) => destruct b
      | |- appends (match ?x with Some _ => _ | None => _ end) => destruct x
      end ].

Lemma appends_read_string : appends read_string.
Proof. unfold read_string. repeat appends_step. Qed.

Lemma appends_array_string (j : N) : appends (array_string j).
Proof. unfold array_string. repeat appends_step. Qed.

Lemma appends_skip_value_with (a s : dict) (key : str) (t : N) :
  appends (skip_value_with a s key t).
Proof.
  unfold skip_value_with. repeat appends_step.
  apply appends_for_range. exact appends_array_string.
Qed.

Lemma appends_entry (i : N) : appends (entry i).
Proof.
  unfold entry. apply appends_try_except.
  - unfold entry_try. apply appends_bind; [exact appends_read_string | intros key].
    repeat appends_step. apply appends_skip_value_with.
  - intros e. repeat appends_step.
Qed.

Lemma appends_entries (i : N) (n : nat) : appends (for_range i n entry).
Proof. apply appends_for_range. exact appends_entry. Qed.

(** ** Length fields over their ceiling, one iteration at a time *)

Lemma entry_key_overflow (i n : N) (rest : bytes) (out : str) :
  10000 < n -> n < 2 ^ 64 ->
  entry i (World (u64 n ++ rest) out)
  = (Break, World rest
       (out ++ length_warning n ++ nl ++ corrupted_key_line i ++ nl)%string).
Proof.
  intros Hbig Hn. unfold entry. apply try_except_break. unfold entry_try.
  rewrite (bind_normal _ _ _ _ _ (read_string_overflow n rest out Hbig Hn)).
  change (String.eqb CORRUPTED CORRUPTED) with true. cbv iota.
  rewrite print_then. unfold break, corrupted_key_line.
  now rewrite !append_assoc.
Qed.

Lemma entry_key_sentinel (i : N) (k rest : bytes) (out : str) :
  len k <= 10000 -> key_text k = CORRUPTED ->
  entry i (World (encode_string k ++ rest) out)
  = (Break, World rest (out ++ corrupted_key_line i ++ nl)%string).
Proof.
  intros Hk Hc. unfold entry. apply try_except_break. unfold entry_try.
  rewrite (bind_normal _ _ _ _ _ (read_string_ok k rest out Hk)).
  rewrite Hc. change (String.eqb CORRUPTED CORRUPTED) with true. cbv iota.
  rewrite print_then. reflexivity.
Qed.

Lemma entry_string_overflow (i : N) (k : bytes) (n : N) (rest : bytes) (out : str) :
  len k <= 10000 -> String.eqb (key_text k) CORRUPTED = false ->
  10000 < n -> n < 2 ^ 64 ->
  entry i (World (encode_string k ++ u32 8 ++ u64 n ++ rest) out)
  = (Break, World rest
       (out ++ entry_line i (key_text k) 8 ++ line_end (key_text k) 8
        ++ value_length_warning n ++ nl)%string).
Proof.
  intros Hk Hc Hbig Hn. unfold entry. apply try_except_break.
  rewrite entry_try_prefix by (auto; reflexivity).
  unfold skip_value, skip_value_with. change (8 =? 8) with true. cbv iota.
  rewrite read_u64 by exact Hn. apply N.ltb_lt in Hbig. rewrite Hbig.
  rewrite print_then. unfold break, value_length_warning.
  now rewrite !append_assoc.
Qed.

(** The ARRAY branch up to the length check. *)
Lemma skip_array_header (key : str) (t n : N) (rest : bytes) (out : str) :
  t < 2 ^ 32 -> n < 2 ^ 64 ->
  skip_value key 9 (World (u32 t ++ u64 n ++ rest) out)
  = (if 100000 <? n then
       print (array_length_warning n) ;;; break
     else if t =? 8 then for_range 0 (N.to_nat n) array_string
     else match get type_sizes t with
          | Some size => _ <- f_read (n * size) ;; ret tt
          | None => ret tt
          end)
      (World rest (out ++ array_detail key t n)%string).
Proof.
  intros Ht Hn. unfold skip_value, skip_value_with.
  change (9 =? 8) with false. change (9 =? 9) with true. cbv iota.
  rewrite read_u32 by exact Ht. rewrite read_u64 by exact Hn.
  unfold array_detail, array_length_warning.
  destruct (String.eqb key watch_key).
  - now rewrite print_then.
  - unfold bind at 1, ret at 1. now rewrite append_nil_r.
Qed.

Lemma entry_array_length_overflow (i : N) (k : bytes) (t n : N) (rest : bytes)
    (out : str) :
  len k <= 10000 -> String.eqb (key_text k) CORRUPTED = false ->
  t < 2 ^ 32 -> 100000 < n -> n < 2 ^ 64 ->
  entry i (World (encode_string k ++ u32 9 ++ u32 t ++ u64 n ++ rest) out)
  = (Break, World rest
       (out ++ entry_line i (key_text k) 9 ++ line_end (key_text k) 9
        ++ array_detail (key_text k) t n ++ array_length_warning n ++ nl)%string).
Proof.
  intros Hk Hc Ht Hbig Hn. unfold entry. apply try_except_break.
  rewrite entry_try_prefix by (auto; reflexivity).
  rewrite skip_array_header by assumption.
  apply N.ltb_lt in Hbig. rewrite Hbig. rewrite print_then.
  unfold break. now rewrite !append_assoc.
Qed.

Lemma entry_array_string_overflow (i : N) (k : bytes) (c : N) (l : list bytes)
    (n : N) (rest : bytes) (out : str) :
  len k <= 10000 -> String.eqb (key_text k) CORRUPTED = false ->
  c <= 100000 -> N.of_nat (List.length l) < c ->
  forallb (fun e => len e <=? 10000) l = true ->
  10000 < n -> n < 2 ^ 64 ->
  entry i (World (encode_string k ++ u32 9 ++ u32 8 ++ u64 c
                  ++ flat_map encode_string l ++ u64 n ++ rest) out)
  = (Return, World rest
       (out ++ entry_line i (key_text k) 9 ++ line_end (key_text k) 9
        ++ array_detail (key_text k) 8 c ++ array_string_warning ++ nl)%string).
Proof.
  intros Hk Hc Hc100 Hlt Hl Hbig Hn. unfold entry. apply try_except_return.
  rewrite entry_try_prefix by (auto; reflexivity).
  rewrite skip_array_header by (try reflexivity; now apply len_bound_u64).
  apply N.ltb_ge in Hc100. rewrite Hc100.
  change (8 =? 8) with true. cbv iota.
  assert (Hsplit : exists m, N.to_nat c = (List.length l + S m)%nat).
  { exists (N.to_nat c - S (List.length l))%nat. lia. }
  destruct Hsplit as [m Hm]. rewrite Hm.
  rewrite array_strings_ok by exact Hl.
  rewrite (for_range_return _ _ _ _ _ (array_string_overflow _ n rest _ Hbig Hn)).
  now rewrite !append_assoc.
Qed.

(** ** The safety net

    A key length field cut short by the end of the file: [struct.unpack]
    raises inside the [try], the handler reports the iteration and breaks. *)

Lemma f_read_short (n : N) (r : bytes) (out : str) :
  (List.length r <= N.to_nat n)%nat ->
  f_read n (World r out) = (Normal r, World [] out).
Proof.
  intros H. unfold f_read. cbn [unread stdout].
  now rewrite firstn_all2, skipn_all2 by exact H.
Qed.

Lemma entry_short_key_length (i : N) (r : bytes) (out : str) :
  (List.length r < 8)%nat ->
  entry i (World r out)
  = (Break,
     World []
       (out
        ++ f ["  Error reading key "; str_of_int (i + 1); ": ";
              "unpack requires a buffer of 8 bytes"]
        ++ nl)%string).
Proof.
  intros H. unfold entry, try_except, entry_try, read_string.
  assert (Hread : f_read 8 (World r out) = (Normal r, World [] out))
    by (apply f_read_short; change (N.to_nat 8) with 8%nat; lia).
  assert (Hlen : len r <> 8) by (unfold len; lia).
  rewrite (bind_raise _ _ _ _ _
             (eq_trans (bind_normal _ _ _ _ _ Hread)
                (bind_raise _ _ _ _ _ (unpack_short 8 r _ Hlen)))).
  reflexivity.
Qed.

(** ** Stepping over one more entry *)

Lemma run_entry_wf (h : header) (es : list kv) (e : kv) (tail : bytes) :
  header_fits h = true -> forallb wf_kv es = true -> reaches h es = true ->
  wf_kv e = true ->
  read_gguf_metadata (gguf h es (encode_kv e ++ tail))
  = for_range (N.succ (N.of_nat (List.length es))) (remaining h es) entry
      (World tail
         (report_before h es
          ++ entry_report (N.of_nat (List.length es)) e)%string).
Proof.
  intros Hh Hes Hr He.
  rewrite (run_to h es (encode_kv e ++ tail) Hh Hes Hr).
  now rewrite (for_range_normal _ _ _ _ _ _ (entry_wf _ e tail _ He)).
Qed.

Lemma get_type_sizes_none (t : N) : 10 < t -> get type_sizes t = None.
Proof.
  intros H. unfold type_sizes. cbn [get].
  repeat match goal with
         | |- context [t =? ?c] =>
             replace (t =? c) with false by (symmetry; apply N.eqb_neq; lia)
         end.
  reflexivity.
Qed.

Lemma append_inv_head (a x y : string) : (a ++ x = a ++ y)%string -> x = y.
Proof.
  induction a as [|c a IH]; cbn [append]; intros H; [exact H|].
  injection H as H. now apply IH.
Qed.

(** Side conditions on concrete data. *)
Ltac by_computation :=
  first [ reflexivity | apply N.leb_le; reflexivity | vm_compute; lia ].

(** ** Properties of the script *)

(** C4: an entry whose declared key length exceeds 10000 makes the script
    print the "Corrupted key, stopping" line (after [read_string]'s own
    warning) and end the entry loop.  The bytes after the length field are
    left unread, the report of the entries before it is kept, and no further
    entry is attempted: the function runs to its end. *)
Theorem key_length_overflow_stops_loop (h : header) (es : list kv) (n : N)
    (rest : bytes) :
  header_fits h = true -> forallb wf_kv es = true -> reaches h es = true ->
  10000 < n -> n < 2 ^ 64 ->
  read_gguf_metadata (gguf h es (u64 n ++ rest))
  = (Normal tt,
     World rest
       (report_before h es ++ length_warning n ++ nl
        ++ corrupted_key_line (N.of_nat (List.length es)) ++ nl)%string).
Proof.
  intros Hh Hes Hr Hbig Hn.
  rewrite (run_to h es (u64 n ++ rest) Hh Hes Hr).
  now rewrite (for_range_break _ _ _ _ _ (entry_key_overflow _ n rest _ Hbig Hn)).
Qed.

Lemma key_length_overflow_stops_loop_witness :
  read_gguf_metadata (gguf sample_header sample_entries (u64 20000 ++ b "xyz"))
  = (Normal tt,
     World (b "xyz")
       (report_before sample_header sample_entries ++ length_warning 20000 ++ nl
        ++ corrupted_key_line 1 ++ nl)%string).
Proof.
  apply (key_length_overflow_stops_loop sample_header sample_entries 20000 (b "xyz"));
    reflexivity.
Defined.

(** C5: a STRING entry (type code 8) whose declared value length exceeds
    10000 makes the script print the entry line and a length warning and end
    the entry loop.  The declared payload is left unread and nothing is
    printed after the warning. *)
Theorem string_value_overflow_stops_loop (h : header) (es : list kv) (k : bytes)
    (n : N) (rest : bytes) :
  header_fits h = true -> forallb wf_kv es = true -> reaches h es = true ->
  len k <= 10000 -> String.eqb (key_text k) CORRUPTED = false ->
  10000 < n -> n < 2 ^ 64 ->
  read_gguf_metadata (gguf h es (encode_string k ++ u32 8 ++ u64 n ++ rest))
  = (Normal tt,
     World rest
       (report_before h es
        ++ entry_line (N.of_nat (List.length es)) (key_text k) 8
        ++ line_end (key_text k) 8
        ++ value_length_warning n ++ nl)%string).
Proof.
  intros Hh Hes Hr Hk Hc Hbig Hn.
  rewrite (run_to h es (encode_string k ++ u32 8 ++ u64 n ++ rest) Hh Hes Hr).
  now rewrite (for_range_break _ _ _ _ _
                 (entry_string_overflow _ k n rest _ Hk Hc Hbig Hn)).
Qed.

Lemma string_value_overflow_stops_loop_witness :
  read_gguf_metadata
    (gguf sample_header sample_entries
       (encode_string (b "general.name") ++ u32 8 ++ u64 10001 ++ b "xyz"))
  = (Normal tt,
     World (b "xyz")
       (report_before sample_header sample_entries
        ++ entry_line 1 "general.name" 8 ++ nl
        ++ value_length_warning 10001 ++ nl)%string).
Proof.
  apply (string_value_overflow_stops_loop sample_header sample_entries
           (b "general.name") 10001 (b "xyz")); by_computation.
Defined.

(** C1: in an ARRAY entry whose element type is STRING (code 8), the first
    element whose declared length exceeds 10000 makes the script print a
    warning and [return]: the rest of the array and of the file is left
    unread and nothing more is printed.  The other length overflows (key,
    STRING value, array length) only [break] out of the entry loop, after
    which the function runs to its end.  In every case the report of the
    entries before is kept. *)
Theorem array_string_overflow_aborts_parse (h : header) (es : list kv)
    (k : bytes) (c : N) (l : list bytes) (n t a : N) (rest : bytes) :
  header_fits h = true -> forallb wf_kv es = true -> reaches h es = true ->
  len k <= 10000 -> String.eqb (key_text k) CORRUPTED = false ->
  c <= 100000 -> N.of_nat (List.length l) < c ->
  forallb (fun e => len e <=? 10000) l = true ->
  10000 < n -> n < 2 ^ 64 ->
  t < 2 ^ 32 -> 100000 < a -> a < 2 ^ 64 ->
  let i := N.of_nat (List.length es) in
  let key := key_text k in
  read_gguf_metadata
    (gguf h es (encode_string k ++ u32 9 ++ u32 8 ++ u64 c
                ++ flat_map encode_string l ++ u64 n ++ rest))
  = (Return,
     World rest
       (report_before h es ++ entry_line i key 9 ++ line_end key 9
        ++ array_detail key 8 c ++ array_string_warning ++ nl)%string)
  /\ read_gguf_metadata (gguf h es (u64 n ++ rest))
     = (Normal tt,
        World rest
          (report_before h es ++ length_warning n ++ nl
           ++ corrupted_key_line i ++ nl)%string)
  /\ read_gguf_metadata (gguf h es (encode_string k ++ u32 8 ++ u64 n ++ rest))
     = (Normal tt,
        World rest
          (report_before h es ++ entry_line i key 8 ++ line_end key 8
           ++ value_length_warning n ++ nl)%string)
  /\ read_gguf_metadata
       (gguf h es (encode_string k ++ u32 9 ++ u32 t ++ u64 a ++ rest))
     = (Normal tt,
        World rest
          (report_before h es ++ entry_line i key 9 ++ line_end key 9
           ++ array_detail key t a ++ array_length_warning a ++ nl)%string).
Proof.
  intros Hh Hes Hr Hk Hc Hc100 Hlt Hl Hbig Hn Ht Ha Ha64 i key.
  repeat split.
  - rewrite (run_to h es (encode_string k ++ u32 9 ++ u32 8 ++ u64 c
                           ++ flat_map encode_string l ++ u64 n ++ rest)
                Hh Hes Hr).
    now rewrite (for_range_return _ _ _ _ _
                   (entry_array_string_overflow _ k c l n rest _
                      Hk Hc Hc100 Hlt Hl Hbig Hn)).
  - rewrite (run_to h es (u64 n ++ rest) Hh Hes Hr).
    now rewrite (for_range_break _ _ _ _ _
                   (entry_key_overflow _ n rest _ Hbig Hn)).
  - rewrite (run_to h es (encode_string k ++ u32 8 ++ u64 n ++ rest) Hh Hes Hr).
    now rewrite (for_range_break _ _ _ _ _
                   (entry_string_overflow _ k n rest _ Hk Hc Hbig Hn)).
  - rewrite (run_to h es (encode_string k ++ u32 9 ++ u32 t ++ u64 a ++ rest)
                Hh Hes Hr).
    now rewrite (for_range_break _ _ _ _ _
                   (entry_array_length_overflow _ k t a rest _
                      Hk Hc Ht Ha Ha64)).
Qed.

Lemma array_string_overflow_aborts_parse_witness :
  read_gguf_metadata
    (gguf sample_header sample_entries
       (encode_string (b "tags") ++ u32 9 ++ u32 8 ++ u64 3
        ++ flat_map encode_string [b "a"] ++ u64 20000 ++ b "rest"))
  = (Return,
     World (b "rest")
       (report_before sample_header sample_entries
        ++ entry_line 1 "tags" 9 ++ nl ++ array_string_warning ++ nl)%string).
Proof.
  apply (array_string_overflow_aborts_parse sample_header sample_entries
           (b "tags") 3 [b "a"] 20000 4 100001 (b "rest")); by_computation.
Defined.

(** C7: on a file shorter than 24 bytes one of the four header reads comes
    back short and [struct.unpack] raises; the exception is not caught, the
    script has printed nothing and the entry loop is never entered. *)
Theorem short_header_raises (content : bytes) :
  (List.length content < 24)%nat ->
  read_gguf_metadata content = (Raise (header_error content), World [] "").
Proof.
  intros H.
  do 24 (destruct content as [|? content]; [reflexivity|]).
  cbn [List.length] in H. lia.
Qed.

Lemma short_header_raises_witness :
  read_gguf_metadata (b "GGUF" ++ u32 3 ++ u64 0 ++ [x01; x00])
  = (Raise (StructError "unpack requires a buffer of 8 bytes"), World [] "").
Proof.
  apply (short_header_raises (b "GGUF" ++ u32 3 ++ u64 0 ++ [x01; x00])).
  vm_compute. lia.
Defined.

(** C9: the sentinel is the text "<CORRUPTED>" itself.  For a key within the
    ceiling whose bytes decode to exactly that text, [read_string] returns
    the same value as for an oversized length, so the script prints the
    "Corrupted key, stopping" line and ends the entry loop although the
    stream is valid. *)
Theorem sentinel_key_taken_for_corruption (h : header) (es : list kv)
    (k rest : bytes) (n : N) (rest' : bytes) (out out' : str) :
  header_fits h = true -> forallb wf_kv es = true -> reaches h es = true ->
  len k <= 10000 -> key_text k = "<CORRUPTED>" ->
  10000 < n -> n < 2 ^ 64 ->
  fst (read_string (World (encode_string k ++ rest) out))
  = fst (read_string (World (u64 n ++ rest') out'))
  /\ read_gguf_metadata (gguf h es (encode_string k ++ rest))
     = (Normal tt,
        World rest
          (report_before h es
           ++ corrupted_key_line (N.of_nat (List.length es)) ++ nl)%string).
Proof.
  intros Hh Hes Hr Hk Hc Hbig Hn. split.
  - rewrite read_string_ok by exact Hk.
    rewrite read_string_overflow by assumption.
    cbn [fst]. now rewrite Hc.
  - rewrite (run_to h es (encode_string k ++ rest) Hh Hes Hr).
    now rewrite (for_range_break _ _ _ _ _
                   (entry_key_sentinel _ k rest _ Hk Hc)).
Qed.

Lemma sentinel_key_taken_for_corruption_witness :
  read_gguf_metadata
    (gguf sample_header sample_entries
       (encode_string (b "<CORRUPTED>") ++ u32 4 ++ u32 7))
  = (Normal tt,
     World (u32 4 ++ u32 7)
       (report_before sample_header sample_entries
        ++ corrupted_key_line 1 ++ nl)%string).
Proof.
  apply (sentinel_key_taken_for_corruption sample_header sample_entries
           (b "<CORRUPTED>") (u32 4 ++ u32 7) 10001 [] "" "");
    by_computation.
Defined.

(** C6, as amended: the entry loop runs [min(kv_count, 50)] times.  When the
    header is followed by that many well-formed entries (lengths within the
    ceilings, payloads complete, no key equal to the text "<CORRUPTED>"), the
    script prints exactly their entry reports, one per iteration, with no
    warning, leaves everything after them unread and runs to its end; with
    [kv_count = 100] these are the first fifty entries. *)
Theorem loop_runs_min_kv_count_50 (h : header) (es : list kv) (tail : bytes) :
  header_fits h = true -> forallb wf_kv es = true ->
  List.length es = N.to_nat (N.min (kv_count h) 50) ->
  read_gguf_metadata (gguf h es tail)
  = (Normal tt, World tail (report_before h es)).
Proof.
  intros Hh Hes Hlen.
  assert (Hr : reaches h es = false) by (apply N.ltb_ge; lia).
  rewrite (run_capped h es tail Hh Hes Hr). rewrite <- Hlen.
  now rewrite firstn_all, skipn_all.
Qed.

Lemma loop_runs_min_kv_count_50_witness :
  read_gguf_metadata
    (gguf (Header 0x46554747 3 0 100) (repeat plain_entry 50)
       (flat_map encode_kv (repeat plain_entry 50)))
  = (Normal tt,
     World (flat_map encode_kv (repeat plain_entry 50))
       (report_before (Header 0x46554747 3 0 100) (repeat plain_entry 50))).
Proof.
  apply (loop_runs_min_kv_count_50 (Header 0x46554747 3 0 100)
           (repeat plain_entry 50) (flat_map encode_kv (repeat plain_entry 50)));
    reflexivity.
Defined.

(** C6, as stated, fails: a file that declares [kv_count = 100] and holds
    one hundred entries allowed by the format, the first of them with the key
    "<CORRUPTED>", yields the "Corrupted key, stopping" line and no entry line
    at all. *)
Lemma sentinel_key_defeats_cap :
  forallb fits_format sentinel_first = true
  /\ List.length sentinel_first = 100%nat
  /\ stdout (snd (read_gguf_metadata
                    (gguf (Header 0x46554747 3 0 100) sentinel_first [])))
     = (header_report (Header 0x46554747 3 0 100)
        ++ corrupted_key_line 0 ++ nl)%string
  /\ stdout (snd (read_gguf_metadata
                    (gguf (Header 0x46554747 3 0 100) sentinel_first [])))
     <> report_before (Header 0x46554747 3 0 100) (firstn 50 sentinel_first).
Proof.
  repeat split; try reflexivity.
  apply String.eqb_neq. reflexivity.
Qed.

(** C8: for an entry whose key is the watch-list key and whose type is STRING,
    the report holds the entry text, the "*** FOUND ... ***" marker (printed
    on the same line, right after the entry text) and then a value line:
    [Value: '...'] with the decoded text, or [Value (hex): ...] when the bytes
    are not valid UTF-8.  For the value "llama3" the value line is
    [Value: 'llama3']. *)
Theorem watch_key_string_reported (h : header) (es : list kv) (k p tail : bytes) :
  header_fits h = true -> forallb wf_kv es = true -> reaches h es = true ->
  len k <= 10000 -> key_text k = watch_key -> len p <= 10000 ->
  value_line (b "llama3") = "      Value: 'llama3'"
  /\ exists more : str,
       stdout (snd (read_gguf_metadata
                      (gguf h es (encode_string k ++ u32 8 ++ encode_string p
                                  ++ tail))))
       = (report_before h es
          ++ entry_line (N.of_nat (List.length es)) watch_key 8
          ++ found_marker 8 ++ nl
          ++ value_line p ++ nl
          ++ more)%string.
Proof.
  intros Hh Hes Hr Hk Hw Hp. split; [reflexivity|].
  assert (He : wf_kv (KV k (VString p)) = true).
  { unfold wf_kv. cbn [kv_key kv_value wf_value]. rewrite Hw.
    apply N.leb_le in Hk, Hp. now rewrite Hk, Hp. }
  pose proof (run_entry_wf h es _ tail Hh Hes Hr He) as Hrun.
  unfold encode_kv in Hrun. cbn [kv_key kv_value type_code encode_value] in Hrun.
  rewrite <- !app_assoc in Hrun. rewrite Hrun.
  destruct (appends_entries (N.succ (N.of_nat (List.length es))) (remaining h es)
              (World tail
                 (report_before h es
                  ++ entry_report (N.of_nat (List.length es)) (KV k (VString p)))%string))
    as [more Hmore].
  exists more. rewrite Hmore. cbn [stdout].
  unfold entry_report. cbn [kv_key kv_value type_code value_detail]. rewrite Hw.
  change (String.eqb watch_key watch_key) with true. cbv iota.
  unfold value_line. destruct (decode p); now rewrite !append_assoc.
Qed.

Lemma watch_key_string_reported_witness :
  exists more : str,
    stdout (snd (read_gguf_metadata
                   (gguf sample_header sample_entries
                      (encode_string (b "tokenizer.ggml.pre") ++ u32 8
                       ++ encode_string (b "llama3") ++ []))))
    = (report_before sample_header sample_entries
       ++ entry_line 1 watch_key 8 ++ found_marker 8 ++ nl
       ++ value_line (b "llama3") ++ nl ++ more)%string.
Proof.
  apply (watch_key_string_reported sample_header sample_entries
           (b "tokenizer.ggml.pre") (b "llama3") []); by_computation.
Defined.

(** C10: the payload of a STRING value whose key is not the watch-list key
    is read and dropped.  Two files that differ only in such a payload (same
    declared length, at most 10000) end the same way and give the same
    report. *)
Theorem string_payload_not_inspected (h : header) (es : list kv)
    (k p1 p2 tail : bytes) :
  header_fits h = true -> forallb wf_kv es = true ->
  len k <= 10000 -> String.eqb (key_text k) watch_key = false ->
  len p1 <= 10000 -> List.length p1 = List.length p2 ->
  let run p :=
    read_gguf_metadata
      (gguf h es (encode_string k ++ u32 8 ++ u64 (len p1) ++ p ++ tail)) in
  fst (run p1) = fst (run p2) /\ stdout (snd (run p1)) = stdout (snd (run p2)).
Proof.
  intros Hh Hes Hk Hw Hp Hlen run. subst run. cbv beta.
  destruct (reaches h es) eqn:Hr.
  - destruct (String.eqb (key_text k) CORRUPTED) eqn:Hc.
    + (* the key is the sentinel text: the value is never read *)
      apply String.eqb_eq in Hc.
      rewrite (run_to h es (encode_string k ++ u32 8 ++ u64 (len p1) ++ p1 ++ tail)
                  Hh Hes Hr).
      rewrite (run_to h es (encode_string k ++ u32 8 ++ u64 (len p1) ++ p2 ++ tail)
                  Hh Hes Hr).
      rewrite (for_range_break _ _ _ _ _ (entry_key_sentinel _ k _ _ Hk Hc)).
      rewrite (for_range_break _ _ _ _ _ (entry_key_sentinel _ k _ _ Hk Hc)).
      split; reflexivity.
    + (* the value is read and stepped over *)
      assert (He : forall p, len p = len p1 -> wf_kv (KV k (VString p)) = true).
      { intros p Hpl. unfold wf_kv. cbn [kv_key kv_value wf_value].
        rewrite Hc, Hpl. apply N.leb_le in Hk, Hp. now rewrite Hk, Hp. }
      assert (Hl2 : len p2 = len p1) by (unfold len; now rewrite Hlen).
      assert (Hrep : forall i p,
                 entry_report i (KV k (VString p))
                 = (entry_line i (key_text k) 8 ++ nl)%string).
      { intros i p. unfold entry_report. cbn [kv_key kv_value type_code].
        now rewrite Hw. }
      assert (Hrun : forall p, len p = len p1 ->
                read_gguf_metadata
                  (gguf h es (encode_string k ++ u32 8 ++ u64 (len p1) ++ p ++ tail))
                = for_range (N.succ (N.of_nat (List.length es)))
                    (remaining h es) entry
                    (World tail
                       (report_before h es
                        ++ entry_line (N.of_nat (List.length es)) (key_text k) 8
                        ++ nl)%string)).
      { intros p Hpl.
        pose proof (run_entry_wf h es (KV k (VString p)) tail Hh Hes Hr
                      (He p Hpl)) as Hstep.
        unfold encode_kv in Hstep.
        cbn [kv_key kv_value type_code encode_value] in Hstep.
        unfold encode_string at 2 in Hstep. rewrite Hpl in Hstep.
        rewrite <- !app_assoc in Hstep. now rewrite Hrep in Hstep. }
      rewrite (Hrun p1 eq_refl), (Hrun p2 Hl2). split; reflexivity.
  - (* the cap is reached before this entry *)
    rewrite !(run_capped h es _ Hh Hes Hr). split; reflexivity.
Qed.

Lemma string_payload_not_inspected_witness :
  let run p :=
    read_gguf_metadata
      (gguf sample_header sample_entries
         (encode_string (b "general.name") ++ u32 8 ++ u64 (len (b "alpha"))
          ++ p ++ b "tail")) in
  fst (run (b "alpha")) = fst (run (b "omega"))
  /\ stdout (snd (run (b "alpha"))) = stdout (snd (run (b "omega"))).
Proof.
  apply (string_payload_not_inspected sample_header sample_entries
           (b "general.name") (b "alpha") (b "omega") (b "tail"));
    by_computation.
Defined.

(** C2, as amended: as the type of an entry, code 8 always takes the STRING
    branch and code 9 the ARRAY branch, whatever the fixed-width tables hold:
    neither is looked up.  A STRING value of [q] bytes is consumed as 8 + [q]
    bytes, not as the 8 bytes of the table.  As the element type of an ARRAY,
    code 8 always takes the string-array branch, again without a lookup.
    Element type 9, however, is looked up in [type_sizes], where it has width
    8: [array_len * 8] bytes are skipped. *)
Theorem codes_8_and_9_dispatch (a s a' s' : dict) (key : str) (w : world)
    (q p rest : bytes) (n : N) (out : str) :
  len q <= 10000 -> n <= 100000 -> len p = n * 8 ->
  skip_value_with a s key 8 w = skip_value_with a' s' key 8 w
  /\ skip_value_with a s key 9 w = skip_value_with a s' key 9 w
  /\ skip_value key 8 (World (encode_string q ++ rest) out)
     = (Normal tt, World rest (out ++ detail_for key (VString q))%string)
  /\ skip_value_with a s key 9 (World (u32 8 ++ rest) out)
     = skip_value_with a' s key 9 (World (u32 8 ++ rest) out)
  /\ skip_value key 9 (World (u32 9 ++ u64 n ++ p ++ rest) out)
     = (Normal tt, World rest (out ++ array_detail key 9 n)%string).
Proof.
  intros Hq Hn Hp. split; [|split; [|split; [|split]]].
  - reflexivity.
  - reflexivity.
  - apply (skip_value_wf key (VString q)). cbn [wf_value]. now apply N.leb_le.
  - unfold skip_value_with.
    change (9 =? 8) with false. change (9 =? 9) with true. cbv iota.
    rewrite !read_u32 by reflexivity. reflexivity.
  - assert (Hv : wf_value (VArray 9 n p) = true).
    { cbn [wf_value]. apply N.leb_le in Hn. rewrite Hn, Hp.
      change (width 9) with 8. now rewrite N.eqb_refl. }
    apply (skip_value_wf key (VArray 9 n p) rest out Hv).
Qed.

Lemma codes_8_and_9_dispatch_witness :
  skip_value "general.tags" 9
    (World (u32 9 ++ u64 2 ++ b "0123456789abcdef" ++ b "rest") "")
  = (Normal tt, World (b "rest") "").
Proof.
  apply (codes_8_and_9_dispatch type_sizes type_sizes [] [] "general.tags"
           (World [] "") (b "q") (b "0123456789abcdef") (b "rest") 2 "");
    by_computation.
Defined.

(** C2, as stated, fails for element type 9: the spec's table has no width
    for it, so zero bytes should be skipped, but the script's table gives it
    width 8 and the script skips the eight bytes that follow the array
    header. *)
Lemma element_type_9_is_looked_up :
  width_of 9 = None
  /\ get type_sizes 9 = Some 8
  /\ unread (snd (read_gguf_metadata array_of_9)) = b "TAIL"
  /\ unread (snd (read_gguf_metadata array_of_9)) <> b "12345678" ++ b "TAIL".
Proof.
  repeat split; try reflexivity.
  vm_compute. intros H. discriminate H.
Qed.

(** C3, as amended: for a type code above 10, as the type of an entry or as
    the element type of an ARRAY (within the length ceiling), the script
    skips no value bytes and does not fail: the loop goes on with the next
    iteration right after the type code (or after the array header).  Nothing
    is printed for the entry besides its entry line (and, for the watch-list
    key, the marker and the array detail line): there is no diagnostic
    note. *)
Theorem unknown_type_skips_nothing (h : header) (es : list kv) (k : bytes)
    (t n : N) (tail : bytes) :
  header_fits h = true -> forallb wf_kv es = true -> reaches h es = true ->
  len k <= 10000 -> String.eqb (key_text k) CORRUPTED = false ->
  10 < t -> t < 2 ^ 32 -> n <= 100000 ->
  let i := N.of_nat (List.length es) in
  let key := key_text k in
  read_gguf_metadata (gguf h es (encode_string k ++ u32 t ++ tail))
  = for_range (N.succ i) (remaining h es) entry
      (World tail
         (report_before h es ++ entry_line i key t ++ line_end key t)%string)
  /\ read_gguf_metadata
       (gguf h es (encode_string k ++ u32 9 ++ u32 t ++ u64 n ++ tail))
     = for_range (N.succ i) (remaining h es) entry
         (World tail
            (report_before h es ++ entry_line i key 9 ++ line_end key 9
             ++ array_detail key t n)%string).
Proof.
  intros Hh Hes Hr Hk Hc Ht Ht32 Hn i key. subst i key.
  assert (Ht8 : (t =? 8) = false) by (apply N.eqb_neq; lia).
  assert (Ht9 : (t =? 9) = false) by (apply N.eqb_neq; lia).
  assert (Hw : width t = 0) by (unfold width; now rewrite get_type_sizes_none).
  apply N.leb_le in Hk. apply N.ltb_lt in Ht32. apply N.leb_le in Hn.
  split.
  - assert (He : wf_kv (KV k (VScalar t [])) = true).
    { unfold wf_kv. cbn [kv_key kv_value wf_value].
      now rewrite Hk, Hc, Ht8, Ht9, Ht32, Hw. }
    pose proof (run_entry_wf h es _ tail Hh Hes Hr He) as Hrun.
    unfold encode_kv in Hrun. cbn [kv_key kv_value type_code encode_value] in Hrun.
    rewrite <- !app_assoc in Hrun. cbn [app] in Hrun. rewrite Hrun.
    rewrite entry_report_eq. cbn [kv_key kv_value type_code].
    unfold detail_for. cbn [value_detail].
    destruct (String.eqb (key_text k) watch_key); now rewrite append_nil_r.
  - assert (He : wf_kv (KV k (VArray t n [])) = true).
    { unfold wf_kv. cbn [kv_key kv_value wf_value].
      rewrite Hk, Hc, Ht8, Ht32, Hn, Hw. now rewrite N.mul_0_r. }
    pose proof (run_entry_wf h es _ tail Hh Hes Hr He) as Hrun.
    unfold encode_kv in Hrun. cbn [kv_key kv_value type_code encode_value] in Hrun.
    rewrite <- !app_assoc in Hrun. cbn [app] in Hrun. rewrite Hrun.
    rewrite entry_report_eq. reflexivity.
Qed.

Lemma unknown_type_skips_nothing_witness :
  read_gguf_metadata
    (gguf sample_header sample_entries
       (encode_string (b "general.kind") ++ u32 11 ++ b "tail"))
  = for_range 2 1 entry
      (World (b "tail")
         (report_before sample_header sample_entries
          ++ entry_line 1 "general.kind" 11 ++ nl)%string).
Proof.
  apply (unknown_type_skips_nothing sample_header sample_entries
           (b "general.kind") 11 0 (b "tail")); by_computation.
Defined.

(** C3, as stated, fails on the diagnostic note: for a single entry of type
    code 11 the report is the header and the entry line, and nothing else. *)
Lemma unknown_type_gets_no_note :
  read_gguf_metadata unknown_code_file
  = (Normal tt,
     World []
       (header_report (Header 0x46554747 3 0 1) ++ entry_line 0 "k" 11 ++ nl)%string)
  /\ ~ exists note : str,
         note <> ""
         /\ stdout (snd (read_gguf_metadata unknown_code_file))
            = ((header_report (Header 0x46554747 3 0 1) ++ entry_line 0 "k" 11 ++ nl)
               ++ note)%string.
Proof.
  assert (Hrun : read_gguf_metadata unknown_code_file
                 = (Normal tt,
                    World []
                      (header_report (Header 0x46554747 3 0 1)
                       ++ entry_line 0 "k" 11 ++ nl)%string))
    by reflexivity.
  split; [exact Hrun|].
  intros [note [Hne Heq]]. rewrite Hrun in Heq. cbn [snd stdout] in Heq.
  apply Hne. symmetry.
  apply (append_inv_head
           (header_report (Header 0x46554747 3 0 1) ++ entry_line 0 "k" 11 ++ nl)).
  now rewrite append_nil_r.
Qed.

(** ** Further properties: any file at all *)

(** Reading a fixed-width field when enough bytes are left, whatever they
    are. *)
Lemma read_field_raw {B} (size : nat) (l : bytes) (out : str) (k : N -> M B) :
  (size <= List.length l)%nat ->
  (raw <- f_read (N.of_nat size) ;; v <- unpack (N.of_nat size) raw ;; k v)
    (World l out)
  = k (le_value (firstn size l)) (World (skipn size l) out).
Proof.
  intros H.
  rewrite <- (firstn_skipn size l) at 1.
  apply read_field. unfold len. rewrite length_firstn. f_equal. lia.
Qed.

Lemma header_raw (content : bytes) :
  (24 <= List.length content)%nat ->
  read_gguf_metadata content
  = for_range 0 (N.to_nat (N.min (kv_count (parse_header content)) 50)) entry
      (World (skipn 24 content) (header_report (parse_header content))).
Proof.
  intros H. unfold read_gguf_metadata, read_gguf_metadata_body.
  rewrite (read_field_raw 4) by lia.
  rewrite (read_field_raw 4) by (rewrite length_skipn; lia).
  rewrite (read_field_raw 8) by (rewrite !length_skipn; lia).
  rewrite (read_field_raw 8) by (rewrite !length_skipn; lia).
  rewrite !skipn_skipn. cbn [Nat.add].
  rewrite !print_then. unfold header_report, parse_header. cbn [magic version tensor_count kv_count].
  now rewrite !append_assoc.
Qed.

Lemma short_header_outcome (content : bytes) :
  (List.length content < 24)%nat ->
  exists e, read_gguf_metadata content = (Raise e, World [] "").
Proof.
  intros H.
  do 24 (destruct content as [|? content]; [eexists; reflexivity|]).
  cbn [List.length] in H. lia.
Qed.

(** An iteration never lets an exception out, and the loop ends normally or
    by [return]. *)
Lemma entry_not_raise (i : N) (w : world) :
  exists w', entry i w = (Normal tt, w') \/ entry i w = (Break, w')
             \/ entry i w = (Return, w').
Proof.
  unfold entry, try_except.
  destruct (entry_try i w) as [[[] | | | e] w0].
  - exists w0. now left.
  - exists w0. right. now left.
  - exists w0. right. now right.
  - destruct w0 as [u o]. rewrite !print_then. eexists. right. left. reflexivity.
Qed.

Lemma entries_not_raise (n : nat) (i : N) (w : world) :
  exists w', for_range i n entry w = (Normal tt, w')
             \/ for_range i n entry w = (Return, w').
Proof.
  revert i w. induction n as [|n IH]; intros i w.
  - exists w. now left.
  - destruct (entry_not_raise i w) as [w0 [H | [H | H]]].
    + rewrite (for_range_normal _ _ _ _ _ _ H). apply IH.
    + rewrite (for_range_break _ _ _ _ _ H). exists w0. now left.
    + rewrite (for_range_return _ _ _ _ _ H). exists w0. now right.
Qed.

(** The loop on an exhausted file: the first iteration reports the short
    read and breaks. *)
Lemma entries_at_end (i : N) (n : nat) (r : bytes) (out : str) :
  (List.length r < 8)%nat ->
  for_range i (S n) entry (World r out)
  = (Normal tt, World [] (out ++ error_line i 8 ++ nl)%string).
Proof.
  intros H. now rewrite (for_range_break _ _ _ _ _ (entry_short_key_length i r out H)).
Qed.

Lemma entry_short_type_code (i : N) (k r : bytes) (out : str) :
  len k <= 10000 -> String.eqb (key_text k) CORRUPTED = false ->
  (List.length r < 4)%nat ->
  entry i (World (encode_string k ++ r) out)
  = (Break, World [] (out ++ error_line i 4 ++ nl)%string).
Proof.
  intros Hk Hc H. unfold entry, try_except, entry_try.
  rewrite (bind_normal _ _ _ _ _ (read_string_ok k r out Hk)). rewrite Hc.
  assert (Hread : f_read 4 (World r out) = (Normal r, World [] out))
    by (apply f_read_short; change (N.to_nat 4) with 4%nat; lia).
  assert (Hlen : len r <> 4) by (unfold len; lia).
  rewrite (bind_normal _ _ _ _ _ Hread).
  rewrite (bind_raise _ _ _ _ _ (unpack_short 4 r _ Hlen)).
  reflexivity.
Qed.

(** A STRING value cut short by the end of the file is read as far as it
    goes. *)
Lemma entry_short_string_value (i : N) (k : bytes) (n : N) (p : bytes) (out : str) :
  len k <= 10000 -> String.eqb (key_text k) CORRUPTED = false ->
  n <= 10000 -> len p <= n ->
  entry i (World (encode_string k ++ u32 8 ++ u64 n ++ p) out)
  = (Normal tt,
     World []
       (out ++ entry_line i (key_text k) 8 ++ line_end (key_text k) 8
        ++ detail_for (key_text k) (VString p))%string).
Proof.
  intros Hk Hc Hn Hp. unfold entry. apply try_except_normal.
  rewrite entry_try_prefix by (auto; reflexivity).
  unfold skip_value, skip_value_with. change (8 =? 8) with true. cbv iota.
  rewrite read_u64 by (apply len_bound_u64; lia).
  apply N.ltb_ge in Hn. rewrite Hn.
  assert (Hread : forall o, f_read n (World p o) = (Normal p, World [] o))
    by (intros o; apply f_read_short; unfold len in Hp; lia).
  rewrite (bind_normal _ _ _ _ _ (Hread _)).
  unfold detail_for. cbn [value_detail].
  destruct (String.eqb (key_text k) watch_key).
  - destruct (decode p); rewrite print_run; now rewrite !append_assoc.
  - unfold ret. now rewrite append_nil_r.
Qed.

(** *** The file is only read forward *)


















(** *** The codec in [read_string] *)

Lemma utf8_decode_replace_agrees (l : bytes) :
  forall (need : nat) (lo hi : N) (pend s : str),
    utf8_decode false need lo hi pend l = Some s ->
    utf8_decode true need lo hi pend l = Some s.
Proof.
  induction l as [|x t IH]; intros need lo hi pend s.
  - cbn [utf8_decode]. destruct need; [trivial | discriminate].
  - cbn [utf8_decode].
    assert (Hstart :
      forall s',
        match lead (to_N x) with
        | Some (O, _, _) =>
            option_map (String (ascii_of_byte x)) (utf8_decode false 0 0 0 "" t)
        | Some (S _ as k, lo', hi') =>
            utf8_decode false k lo' hi' (String (ascii_of_byte x) "") t
        | None => None
        end = Some s' ->
        match lead (to_N x) with
        | Some (O, _, _) =>
            option_map (String (ascii_of_byte x)) (utf8_decode true 0 0 0 "" t)
        | Some (S _ as k, lo', hi') =>
            utf8_decode true k lo' hi' (String (ascii_of_byte x) "") t
        | None =>
            option_map (String.append replacement_character)
              (utf8_decode true 0 0 0 "" t)
        end = Some s').
    { intros s'. destruct (lead (to_N x)) as [[[[|k] lo'] hi']|].
      - destruct (utf8_decode false 0 0 0 "" t) as [r|] eqn:E; [|discriminate].
        now rewrite (IH _ _ _ _ _ E).
      - apply IH.
      - discriminate. }
    destruct need as [|k].
    + apply Hstart.
    + destruct ((lo <=? to_N x) && (to_N x <=? hi)); [|discriminate].
      destruct k as [|k'].
      * destruct (utf8_decode false 0 0 0 "" t) as [r|] eqn:E; [|discriminate].
        now rewrite (IH _ _ _ _ _ E).
      * apply IH.
Qed.

Lemma key_text_is_replace (l : bytes) : key_text l = decode_replace l.
Proof.
  unfold key_text, decode_replace, decode.
  destruct (utf8_decode false 0 0 0 "" l) as [s|] eqn:E; [|reflexivity].
  now rewrite (utf8_decode_replace_agrees l _ _ _ _ _ E).
Qed.

(** ** Further properties of [debug_gguf.py] *)

(** X1: the header is not validated.  Whatever the first 24 bytes of the file
    are, the script decodes them as four little-endian fields and its report
    starts with the three header lines made from them. *)
Theorem header_accepts_any_bytes (content : bytes) :
  (24 <= List.length content)%nat ->
  exists more : str,
    stdout (snd (read_gguf_metadata content))
    = (header_report (parse_header content) ++ more)%string.
Proof.
  intros H. rewrite (header_raw content H).
  apply (appends_entries 0 _
           (World (skipn 24 content) (header_report (parse_header content)))).
Qed.

Lemma header_accepts_any_bytes_witness :
  exists more : str,
    stdout (snd (read_gguf_metadata (b "not a GGUF file, just some text")))
    = (header_report (parse_header (b "not a GGUF file, just some text"))
       ++ more)%string.
Proof.
  apply (header_accepts_any_bytes (b "not a GGUF file, just some text")).
  vm_compute. lia.
Defined.

(** X2: [read_gguf_metadata] lets an exception out exactly when the file has
    fewer than 24 bytes.  Once the header is read, every failure is caught
    inside the loop and the function ends normally or by [return]. *)
Theorem raises_iff_short_header (content : bytes) :
  (exists e, fst (read_gguf_metadata content) = Raise e)
  <-> (List.length content < 24)%nat.
Proof.
  split.
  - intros [e He].
    destruct (Nat.lt_ge_cases (List.length content) 24) as [Hlt | Hge];
      [exact Hlt | exfalso].
    rewrite (header_raw content Hge) in He.
    destruct (entries_not_raise
                (N.to_nat (N.min (kv_count (parse_header content)) 50)) 0
                (World (skipn 24 content) (header_report (parse_header content))))
      as [w' [H | H]]; rewrite H in He; discriminate He.
  - intros H. destruct (short_header_outcome content H) as [e He].
    exists e. now rewrite He.
Qed.


(** X4: with [kv_count] equal to 0 the report is the three header lines and
    nothing after the header is read. *)
Theorem no_entries_declared (content : bytes) :
  (24 <= List.length content)%nat ->
  kv_count (parse_header content) = 0 ->
  read_gguf_metadata content
  = (Normal tt,
     World (skipn 24 content) (header_report (parse_header content))).
Proof.
  intros H Hkv. rewrite (header_raw content H), Hkv. reflexivity.
Qed.

Lemma no_entries_declared_witness :
  read_gguf_metadata (b "GGUF" ++ u32 3 ++ u64 291 ++ u64 0 ++ b "tensors")
  = (Normal tt,
     World (b "tensors") (header_report (Header 0x46554747 3 291 0))).
Proof.
  apply (no_entries_declared
           (b "GGUF" ++ u32 3 ++ u64 291 ++ u64 0 ++ b "tensors"));
    by_computation.
Defined.

(** X5: a file that ends where an entry is expected, inside the key length
    field or inside the type code, makes [struct.unpack] raise; the [except]
    clause prints "Error reading key" with the number of the entry and the
    loop ends, the earlier report being kept. *)
Theorem truncated_entry_reported (h : header) (es : list kv) (r k r' : bytes) :
  header_fits h = true -> forallb wf_kv es = true -> reaches h es = true ->
  (List.length r < 8)%nat ->
  len k <= 10000 -> String.eqb (key_text k) CORRUPTED = false ->
  (List.length r' < 4)%nat ->
  read_gguf_metadata (gguf h es r)
  = (Normal tt,
     World []
       (report_before h es
        ++ error_line (N.of_nat (List.length es)) 8 ++ nl)%string)
  /\ read_gguf_metadata (gguf h es (encode_string k ++ r'))
     = (Normal tt,
        World []
          (report_before h es
           ++ error_line (N.of_nat (List.length es)) 4 ++ nl)%string).
Proof.
  intros Hh Hes Hr Hlen Hk Hc Hlen'. split.
  - rewrite (run_to h es r Hh Hes Hr). now apply entries_at_end.
  - rewrite (run_to h es (encode_string k ++ r') Hh Hes Hr).
    now rewrite (for_range_break _ _ _ _ _
                   (entry_short_type_code _ k r' _ Hk Hc Hlen')).
Qed.

Lemma truncated_entry_reported_witness :
  read_gguf_metadata (gguf sample_header sample_entries [])
  = (Normal tt,
     World []
       (report_before sample_header sample_entries ++ error_line 1 8 ++ nl)%string).
Proof.
  apply (truncated_entry_reported sample_header sample_entries []
           (b "general.name") (b "abc")); by_computation.
Defined.

(** X6: a STRING value whose payload is cut short by the end of the file is
    not noticed at that entry: [f.read] returns what is left, the entry is
    reported like a complete one, and only the next iteration, when there is
    one, reports a short read. *)
Theorem truncated_string_value_unnoticed (h : header) (es : list kv)
    (k : bytes) (n : N) (p : bytes) :
  header_fits h = true -> forallb wf_kv es = true -> reaches h es = true ->
  len k <= 10000 -> String.eqb (key_text k) CORRUPTED = false ->
  n <= 10000 -> len p < n ->
  read_gguf_metadata (gguf h es (encode_string k ++ u32 8 ++ u64 n ++ p))
  = (Normal tt,
     World []
       (report_before h es
        ++ entry_line (N.of_nat (List.length es)) (key_text k) 8
        ++ line_end (key_text k) 8
        ++ detail_for (key_text k) (VString p)
        ++ match remaining h es with
           | O => ""
           | S _ => error_line (N.succ (N.of_nat (List.length es))) 8 ++ nl
           end)%string).
Proof.
  intros Hh Hes Hr Hk Hc Hn Hp.
  rewrite (run_to h es (encode_string k ++ u32 8 ++ u64 n ++ p) Hh Hes Hr).
  assert (Hp' : len p <= n) by lia.
  rewrite (for_range_normal _ _ _ _ _ _
             (entry_short_string_value _ k n p _ Hk Hc Hn Hp')).
  destruct (remaining h es) as [|m].
  - cbn [for_range]. unfold ret. now rewrite append_nil_r.
  - rewrite entries_at_end by (cbn [List.length]; lia).
    now rewrite !append_assoc.
Qed.

Lemma truncated_string_value_unnoticed_witness :
  read_gguf_metadata
    (gguf sample_header sample_entries
       (encode_string (b "general.name") ++ u32 8 ++ u64 100 ++ b "short"))
  = (Normal tt,
     World []
       (report_before sample_header sample_entries
        ++ entry_line 1 "general.name" 8 ++ nl
        ++ error_line 2 8 ++ nl)%string).
Proof.
  apply (truncated_string_value_unnoticed sample_header sample_entries
           (b "general.name") 100 (b "short")); by_computation.
Defined.

(** X7: [read_string] raises exactly when fewer than 8 bytes are left for
    the length field; a short payload never makes it fail. *)
Theorem read_string_raises_iff (w : world) :
  (exists e, fst (read_string w) = Raise e)
  <-> (List.length (unread w) < 8)%nat.
Proof.
  destruct w as [l out]. cbn [unread]. split.
  - intros [e He].
    destruct (Nat.lt_ge_cases (List.length l) 8) as [Hlt | Hge];
      [exact Hlt | exfalso].
    unfold read_string in He.
    rewrite (read_field_raw 8 l out _ Hge) in He.
    destruct (10000 <? le_value (firstn 8 l)).
    + rewrite print_then in He. discriminate He.
    + unfold bind, f_read in He. cbn [unread stdout] in He.
      destruct (decode _); discriminate He.
  - intros H. unfold read_string.
    assert (Hread : f_read 8 (World l out) = (Normal l, World [] out))
      by (apply f_read_short; change (N.to_nat 8) with 8%nat; lia).
    assert (Hlen : len l <> 8) by (unfold len; lia).
    rewrite (bind_normal _ _ _ _ _ Hread).
    rewrite (bind_raise _ _ _ _ _ (unpack_short 8 l _ Hlen)).
    eexists. reflexivity.
Qed.

(** X8: the [try]/[except UnicodeDecodeError] of [read_string] changes
    nothing: for a string within the ceiling it returns what
    [data.decode('utf-8', errors='replace')] gives, and it consumes the length
    field and the payload, no more. *)
Theorem read_string_is_replace_decode (l rest : bytes) (out : str) :
  len l <= 10000 ->
  read_string (World (encode_string l ++ rest) out)
  = (Normal (decode_replace l), World rest out).
Proof.
  intros H. rewrite read_string_ok by exact H. now rewrite key_text_is_replace.
Qed.

Lemma read_string_is_replace_decode_witness :
  read_string (World (encode_string [x6f; xff; x6b] ++ b "rest") "")
  = (Normal (decode_replace [x6f; xff; x6b]), World (b "rest") "").
Proof.
  apply (read_string_is_replace_decode [x6f; xff; x6b] (b "rest") "").
  by_computation.
Defined.

(** X9: the exit status of the script is 0 exactly when it is given one
    argument naming a file that can be opened and holds at least 24 bytes.
    With any other number of arguments it prints the usage line and exits
    with status 1 without opening a file. *)
Theorem main_exit_status (fs : str -> option bytes) (argv : list str) :
  (status (main fs argv) = 0
   <-> List.length argv = 2%nat
       /\ exists content, fs (nth 1 argv "") = Some content
                          /\ (24 <= List.length content)%nat)
  /\ (List.length argv <> 2%nat ->
      main fs argv
      = Process ("Usage: python3 debug_gguf.py <gguf_file>" ++ nl)%string 1).
Proof.
  unfold main. split.
  - destruct (Nat.eqb (List.length argv) 2) eqn:Hargc; cbn [negb].
    + apply Nat.eqb_eq in Hargc.
      destruct (fs (nth 1 argv "")) as [content|].
      * destruct (Nat.lt_ge_cases (List.length content) 24) as [Hlt | Hge].
        -- destruct (short_header_outcome content Hlt) as [e He]. rewrite He.
           cbn [status]. split; [discriminate|].
           intros [_ [c [Hc Hlen]]]. injection Hc as <-. lia.
        -- assert (Hok : status
                           match read_gguf_metadata content with
                           | (Raise _, w) => Process (stdout w) 1
                           | (_, w) => Process (stdout w) 0
                           end = 0).
           { rewrite (header_raw content Hge).
             destruct (entries_not_raise
                         (N.to_nat (N.min (kv_count (parse_header content)) 50)) 0
                         (World (skipn 24 content)
                            (header_report (parse_header content))))
               as [w' [H | H]]; now rewrite H. }
           split; [intros _ | intros _; exact Hok].
           split; [exact Hargc | now exists content].
      * cbn [status]. split; [discriminate|].
        intros [_ [c [Hc _]]]. discriminate Hc.
    + apply Nat.eqb_neq in Hargc. cbn [status]. split; [discriminate|].
      intros [Hc _]. contradiction.
  - intros Hargc. apply Nat.eqb_neq in Hargc. now rewrite Hargc.
Qed.

Lemma main_exit_status_witness :
  main (fun _ => None) ["debug_gguf.py"]
  = Process ("Usage: python3 debug_gguf.py <gguf_file>" ++ nl)%string 1.
Proof.
  apply (main_exit_status (fun _ => None) ["debug_gguf.py"]).
  cbn [List.length]. lia.
Defined.

(** ** Properties of [normalize_model_id] ([verify_fix.py]) *)

Section NormalizeFacts.

Import VerifyFix.

Variable u : N -> bool.

Local Notation "'normalize'" := (normalize_model_id u).
Local Notation "'replace_char'" := (fun c : N => if kept u c then c else 95).

(** The loop builds the result character by character. *)
Lemma normalize_fold (s acc : text) :
  fold_left (fun result c => if kept u c then result ++ [c] else result ++ [95])
    s acc
  = acc ++ map replace_char s.
Proof.
  revert acc. induction s as [|c s IH]; intros acc; cbn [fold_left map].
  - now rewrite app_nil_r.
  - rewrite IH. destruct (kept u c); now rewrite <- app_assoc.
Qed.

Lemma normalize_map (s : text) : normalize s = map replace_char s.
Proof. unfold normalize_model_id. now rewrite normalize_fold. Qed.

Lemma normalize_app (s t : text) : normalize (s ++ t) = normalize s ++ normalize t.
Proof. now rewrite !normalize_map, map_app. Qed.

Lemma kept_underscore : kept u 95 = true.
Proof. reflexivity. Qed.

Lemma kept_replace_char (c : N) : kept u (replace_char c) = true.
Proof. cbv beta. destruct (kept u c) eqn:E; [exact E | exact kept_underscore]. Qed.

(** X10: normalization keeps the number of characters, and every character
    of the result is alphanumeric or one of [_], [-], [.]. *)
Theorem normalize_length_and_alphabet (s : text) :
  List.length (normalize s) = List.length s
  /\ Forall (fun c => kept u c = true) (normalize s).
Proof.
  rewrite normalize_map. split.
  - apply length_map.
  - apply Forall_forall. intros c Hc. apply in_map_iff in Hc as [d [<- _]].
    apply kept_replace_char.
Qed.

(** X11: normalization is idempotent: a normalized identifier is left
    unchanged by a second pass. *)
Theorem normalize_idempotent (s : text) : normalize (normalize s) = normalize s.
Proof.
  rewrite !normalize_map, map_map. apply map_ext. intros c.
  now rewrite kept_replace_char.
Qed.

(** X12: an identifier is returned unchanged exactly when all its characters
    are alphanumeric or one of [_], [-], [.]. *)
Theorem normalize_fixed_iff (s : text) :
  normalize s = s <-> Forall (fun c => kept u c = true) s.
Proof.
  rewrite normalize_map. induction s as [|c s IH]; cbn [map].
  - split; [constructor | reflexivity].
  - split.
    + intros H. injection H as Hc Hs. constructor.
      * destruct (kept u c) eqn:E; [reflexivity|].
        subst c. now rewrite kept_underscore in E.
      * now apply IH.
    + intros H. inversion H as [|? ? Hc Hs]; subst.
      rewrite Hc. f_equal. now apply IH.
Qed.

(** X13: identifiers collide: two characters outside the alphabet are both
    replaced by [_], so identifiers that differ only there get the same
    normal form. *)
Theorem normalize_collides (a z : text) (c d : N) :
  kept u c = false -> kept u d = false ->
  normalize (a ++ c :: z) = normalize (a ++ d :: z).
Proof.
  intros Hc Hd. rewrite !normalize_map, !map_app. cbn [map].
  now rewrite Hc, Hd.
Qed.

(** The target case of [test_normalization] holds whatever the Unicode
    tables are: the registry name is normalized to the expected identifier,
    slashes and the colon replaced, the dots kept. *)
Lemma target_model_matches : normalize target_model = expected_normalized.
Proof. reflexivity. Qed.

End NormalizeFacts.

Lemma normalize_collides_witness :
  VerifyFix.normalize_model_id (fun _ => false) (VerifyFix.lit "library/qwen2.5vl")
  = VerifyFix.normalize_model_id (fun _ => false) (VerifyFix.lit "library:qwen2.5vl").
Proof.
  apply (normalize_collides (fun _ => false) (VerifyFix.lit "library")
           (VerifyFix.lit "qwen2.5vl") 47 58); reflexivity.
Defined.
